(** * Wedding-RSVP: the client-side service-dispatch core

    A shallow embedding of
      - [src/lib/security.ts]      (fixed-window rate limiter),
      - [src/lib/base-service.ts]  (expiring cache and CRUD dispatcher),
      - [src/lib/api-client.ts]    (transport wrapper and error mapping),
    followed by the properties established about them.

    Conventions.  [Date.now()] is an explicit argument [now : Z]
    (milliseconds).  A JavaScript [Map<string, _>] is a [gmap string _].
    A thrown exception is the [inl] side of a sum. *)

From Stdlib Require Import ZArith String Ascii List Bool Lia.
From stdpp Require Import base option list strings pretty gmap.

Local Open Scope Z_scope.

(* ===================================================================== *)
(** * Part I.  Definitions                                                *)
(* ===================================================================== *)

(** ** JavaScript built-ins used by the sources

    Strings are byte strings.  [JSON.stringify] escapes the double quote,
    the backslash and the control characters below U+0020 and passes every
    other byte through. *)

Module Js.

Definition dquote : ascii := "034"%char.
Definition backslash : ascii := "092"%char.

Definition hexDigit (n : N) : ascii :=
  match n with
  | 0 => "0" | 1 => "1" | 2 => "2" | 3 => "3" | 4 => "4" | 5 => "5"
  | 6 => "6" | 7 => "7" | 8 => "8" | 9 => "9" | 10 => "a" | 11 => "b"
  | 12 => "c" | 13 => "d" | 14 => "e" | _ => "f"
  end%N%char.

(** QuoteJSONString, one character. *)
Definition quoteChar (c : ascii) : string :=
  let n := N_of_ascii c in
  if (n =? 8)%N then String backslash "b"
  else if (n =? 9)%N then String backslash "t"
  else if (n =? 10)%N then String backslash "n"
  else if (n =? 12)%N then String backslash "f"
  else if (n =? 13)%N then String backslash "r"
  else if (n =? 34)%N then String backslash (String dquote "")
  else if (n =? 92)%N then String backslash (String backslash "")
  else if (n <? 32)%N then
    String backslash
      (String "u" (String "0" (String "0"
        (String (hexDigit (n / 16)) (String (hexDigit (n mod 16)) "")))))
  else String c "".

Fixpoint quoteBody (s : string) : string :=
  match s with
  | EmptyString => ""
  | String c rest => quoteChar c +:+ quoteBody rest
  end.

(** [JSON.stringify(s)] for a string [s]. *)
Definition quote (s : string) : string :=
  String dquote (quoteBody s +:+ String dquote "").

(** [Array.prototype.join(sep)] on an array of strings. *)
Fixpoint joinRest (sep : string) (l : list string) : string :=
  match l with
  | [] => ""
  | x :: rest => sep +:+ x +:+ joinRest sep rest
  end.

Definition join (sep : string) (l : list string) : string :=
  match l with
  | [] => ""
  | x :: rest => x +:+ joinRest sep rest
  end.

(** [String.prototype.includes]: [pattern] occurs in [s]. *)
Fixpoint includes (s pattern : string) : bool :=
  if String.prefix pattern s then true
  else match s with
       | EmptyString => false
       | String _ rest => includes rest pattern
       end.

(** A plain object with string values, as the list of its own properties
    in property order (keys are pairwise distinct). *)
Definition Obj : Type := list (string * string).

(** [o[k] = v]: an existing property keeps its place, a new one goes last. *)
Fixpoint setProp (k v : string) (o : Obj) : Obj :=
  match o with
  | [] => [(k, v)]
  | (k', v') :: rest =>
      if bool_decide (k' = k) then (k, v) :: rest
      else (k', v') :: setProp k v rest
  end.

(** [{ ...o, ...extra }] where [extra] may be [undefined]. *)
Definition spread (o : Obj) (extra : option Obj) : Obj :=
  match extra with
  | None => o
  | Some ps => fold_left (fun acc kv => setProp kv.1 kv.2 acc) ps o
  end.

(** The values handed to [getCacheKey] by the services: [undefined]
    (an omitted argument), a string, a [string[]] and a
    [Record<string, string>]. *)
Inductive Value : Type :=
| VUndefined
| VString (s : string)
| VStrings (items : list string)
| VObject (props : Obj).

Definition stringifyProp (kv : string * string) : string :=
  quote kv.1 +:+ ":" +:+ quote kv.2.

(** [JSON.stringify] of an array element; [undefined] serialises as
    [null] there. *)
Definition stringifyValue (v : Value) : string :=
  match v with
  | VUndefined => "null"
  | VString s => quote s
  | VStrings items => "[" +:+ join "," (map quote items) +:+ "]"
  | VObject props => "{" +:+ join "," (map stringifyProp props) +:+ "}"
  end.

(** [JSON.stringify(params)] for the rest-parameter array [params]. *)
Definition stringify (params : list Value) : string :=
  "[" +:+ join "," (map stringifyValue params) +:+ "]".



(** Reading back a quoted string: the decoded text and what follows the
    closing quote.  Used to show that [quote] can be undone. *)
Definition unhex (c : ascii) : option N :=
  let n := N_of_ascii c in
  if ((48 <=? n) && (n <=? 57))%N then Some (n - 48)%N
  else if ((97 <=? n) && (n <=? 102))%N then Some (n - 87)%N
  else None.

Definition unescape (e : ascii) : option ascii :=
  let n := N_of_ascii e in
  if (n =? 98)%N then Some "008"%char
  else if (n =? 116)%N then Some "009"%char
  else if (n =? 110)%N then Some "010"%char
  else if (n =? 102)%N then Some "012"%char
  else if (n =? 114)%N then Some "013"%char
  else if (n =? 34)%N then Some dquote
  else if (n =? 92)%N then Some backslash
  else None.

Definition consChar (c : ascii) (r : option (string * string))
    : option (string * string) :=
  match r with
  | Some (s, rest) => Some (String c s, rest)
  | None => None
  end.

Fixpoint unquoteBody (s : string) : option (string * string) :=
  match s with
  | EmptyString => None
  | String c s1 =>
      if Ascii.eqb c dquote then Some (EmptyString, s1)
      else if Ascii.eqb c backslash then
        match s1 with
        | EmptyString => None
        | String e s2 =>
            if Ascii.eqb e "u" then
              match s2 with
              | String _ (String _ (String h (String l s3))) =>
                  match unhex h, unhex l with
                  | Some a, Some b =>
                      consChar (ascii_of_N (16 * a + b)) (unquoteBody s3)
                  | _, _ => None
                  end
              | _ => None
              end
            else
              match unescape e with
              | Some d => consChar d (unquoteBody s2)
              | None => None
              end
        end
      else consChar c (unquoteBody s1)
  end.

End Js.

(** ** api-client.ts: [ApiErrorClass], [ApiClient], [ApiErrorHandler] *)

Module ApiClient.
Import Js.

(** Field-level messages, [Record<string, string[]>], in property order. *)
Definition Details : Type := list (string * list string).

(** [class ApiErrorClass extends Error]. *)
Record ApiErrorClass : Type := mkApiError {
  message : string;
  status : Z;
  code : option string;
  details : option Details
}.

(** What [catch (error)] can receive in [request]: an [ApiErrorClass]
    thrown by [handleResponse], or another [Error] with its message (the
    [TypeError] of a property read on [null]). *)
Inductive Thrown : Type :=
| ThrowApiError (e : ApiErrorClass)
| ThrowError (msg : string).

Definition thrownMessage (t : Thrown) : string :=
  match t with
  | ThrowApiError e => message e
  | ThrowError msg => msg
  end.

(** [a || b] on an optional string: [undefined] and the empty string are
    falsy. *)
Definition orString (a : option string) (b : string) : string :=
  match a with
  | Some s => if bool_decide (s = "") then b else s
  | None => b
  end.

(** [a || b] on optional objects. *)
Definition orObject {A : Type} (a b : option A) : option A :=
  match a with
  | Some x => Some x
  | None => b
  end.

Section Client.
Context {T : Type}.

(** [interface ApiResponse<T>]. *)
Record ApiResponse : Type := mkApiResponse {
  data : T;
  responseStatus : Z;
  responseMessage : option string
}.

(** The properties [handleResponse] reads from the decoded body. *)
Record Envelope : Type := mkEnvelope {
  envMessage : option string;
  envCode : option string;
  envErrors : option Details;
  envDetails : option Details
}.

(** Outcome of [await response.json()] or [await response.text()]. *)
Inductive Decoded : Type :=
| DecodeRejects
| DecodedNull (typeErrorMessage : string)
| DecodedValue (d : T) (props : Envelope).

(** The parts of a fetch [Response] that the client looks at. *)
Record Response : Type := mkResponse {
  httpStatus : Z;
  statusText : string;
  contentType : option string;
  json : Decoded;
  text : Decoded
}.

(** [response.ok]. *)
Definition ok (response : Response) : bool :=
  (200 <=? httpStatus response) && (httpStatus response <=? 299).

(** [ApiClient.handleResponse]. *)
Definition handleResponse (response : Response) : Thrown + ApiResponse :=
  let isJson :=
    match contentType response with
    | Some ct => includes ct "application/json"
    | None => false
    end in
  match (if isJson then json response else text response) with
  | DecodeRejects =>
      inl (ThrowApiError
             (mkApiError "Failed to parse response" (httpStatus response) None None))
  | DecodedNull msg => inl (ThrowError msg)
  | DecodedValue d responseData =>
      if negb (ok response) then
        inl (ThrowApiError
               (mkApiError
                  (orString (envMessage responseData)
                     ("HTTP " +:+ pretty (httpStatus response) +:+ ": "
                      +:+ statusText response))
                  (httpStatus response)
                  (envCode responseData)
                  (orObject (envErrors responseData) (envDetails responseData))))
      else
        inr (mkApiResponse d (httpStatus response) (envMessage responseData))
  end.

(** Outcome of [await fetch(url, ...)]: rejection with an [Error], or a
    response. *)
Inductive FetchOutcome : Type :=
| FetchRejects (msg : string)
| FetchResolves (response : Response).

(** [ApiClient.request], given what [fetch] settles to (the URL, the
    query string and the headers only feed [fetch]).  [fetch] and
    [handleResponse] both run inside the [try]; every caught [Error] is
    rethrown as [new ApiErrorClass(error.message, 0, 'NETWORK_ERROR')]. *)
Definition request (outcome : FetchOutcome) : ApiErrorClass + ApiResponse :=
  match outcome with
  | FetchRejects msg => inl (mkApiError msg 0 (Some "NETWORK_ERROR") None)
  | FetchResolves response =>
      match handleResponse response with
      | inr r => inr r
      | inl error =>
          inl (mkApiError (thrownMessage error) 0 (Some "NETWORK_ERROR") None)
      end
  end.

End Client.

Arguments ApiResponse : clear implicits.
Arguments Decoded : clear implicits.
Arguments Response : clear implicits.
Arguments FetchOutcome : clear implicits.

(** [Object.values(error.details).flat().join(', ')]. *)
Definition joinDetails (d : Details) : string :=
  join ", " (concat (map snd d)).

(** [ApiErrorHandler.handleError]. *)
Definition handleError (error : ApiErrorClass) : string :=
  match status error with
  | 400 =>
      match details error with
      | Some d => joinDetails d
      | None => orString (Some (message error)) "Bad request"
      end
  | 401 => "Your session has expired. Please log in again."
  | 403 => "You do not have permission to perform this action."
  | 404 => "The requested resource was not found."
  | 409 => "This action conflicts with existing data."
  | 422 =>
      match details error with
      | Some d => joinDetails d
      | None => "Validation failed. Please check your input."
      end
  | 500 => "An internal server error occurred. Please try again later."
  | 0 => "Unable to connect to the server. Please check your internet connection."
  | _ => orString (Some (message error)) "An unexpected error occurred."
  end.

Definition isNetworkError (error : ApiErrorClass) : bool :=
  (status error =? 0) || bool_decide (code error = Some "NETWORK_ERROR").

End ApiClient.

(** ** base-service.ts: [BaseService] and [ExtendedBaseService] *)

Module ServiceConfig.
(** [interface ServiceConfig]. *)
Record t : Type := make {
  baseEndpoint : string;
  cacheTimeout : option Z;
  enableCache : option bool
}.
End ServiceConfig.

Module BaseService.
Import Js ApiClient.

(** [a || b] on an optional number: [undefined] and [0] are falsy. *)
Definition orNumber (a : option Z) (b : Z) : Z :=
  match a with
  | Some n => if n =? 0 then b else n
  | None => b
  end.

(** The verb and target of one [apiClient] call. *)
Inductive Method : Type := GET | POST | PUT | PATCH | DELETE.

Record Call : Type := mkCall {
  callMethod : Method;
  callPath : string;
  callParams : option Obj
}.

Section Service.
(** [T] stands for whatever a response carries as [data]; [truthy] is
    its JavaScript truthiness, consulted by [if (cached)]. *)
Context {T : Type}.
Variable truthy : T → bool.

(** [interface CacheEntry<T>]. *)
Record CacheEntry : Type := mkEntry {
  entryData : T;
  timestamp : Z;
  ttl : Z
}.

(** The fields of a [BaseService] instance. *)
Record Service : Type := mkService {
  endpoint : string;
  cache : gmap string CacheEntry;
  cacheTimeout : Z;
  enableCache : bool
}.

Definition withCache (svc : Service) (c : gmap string CacheEntry) : Service :=
  mkService (endpoint svc) c (cacheTimeout svc) (enableCache svc).

(** [constructor(config)]. *)
Definition constructor (config : ServiceConfig.t) : Service :=
  mkService
    (ServiceConfig.baseEndpoint config)
    ∅
    (orNumber (ServiceConfig.cacheTimeout config) (5 * 60 * 1000))
    (default true (ServiceConfig.enableCache config)).

(** [getCacheKey(method, ...params)]. *)
Definition getCacheKey (svc : Service) (method : string) (params : list Value)
    : string :=
  endpoint svc +:+ ":" +:+ method +:+ ":" +:+ stringify params.

(** [setCache(key, data, ttl?)] at time [now]. *)
Definition setCache (key : string) (d : T) (ttl_ : option Z) (now : Z)
    (svc : Service) : Service :=
  if negb (enableCache svc) then svc
  else withCache svc
         (<[key := mkEntry d now (orNumber ttl_ (cacheTimeout svc))]> (cache svc)).

(** [getCache(key)] at time [now]: the returned value ([None] is
    [null]) and the instance afterwards. *)
Definition getCache (key : string) (now : Z) (svc : Service)
    : option T * Service :=
  if negb (enableCache svc) then (None, svc)
  else match cache svc !! key with
       | None => (None, svc)
       | Some entry =>
           if now - timestamp entry >? ttl entry then
             (None, withCache svc (delete key (cache svc)))
           else (Some (entryData entry), svc)
       end.

(** The [forEach] of [clearCache]: every listed key that includes
    [pattern] is deleted. *)
Definition deleteMatching (pattern : string) (keys : list string)
    (c : gmap string CacheEntry) : gmap string CacheEntry :=
  fold_left (fun acc key => if includes key pattern then delete key acc else acc)
            keys c.

(** [clearCache(pattern?)]; an empty pattern is falsy. *)
Definition clearCache (pattern : option string) (svc : Service) : Service :=
  match pattern with
  | Some p =>
      if bool_decide (p = "") then withCache svc ∅
      else withCache svc (deleteMatching p (map fst (map_to_list (cache svc))) (cache svc))
  | None => withCache svc ∅
  end.

(** How a service method ends. *)
Inductive Outcome : Type :=
| Throws (msg : string)
| Returns (d : T)
| ReturnsVoid
| ReturnsBool (b : bool).

(** A method call seen from outside: how it ended, the instance
    afterwards and the [apiClient] calls it issued, in order. *)
Record Effect : Type := mkEffect {
  outcome : Outcome;
  after : Service;
  calls : list Call
}.

(** [handleServiceError]: the message of the [Error] thrown in place of
    a caught one. *)
Definition handleServiceError (context : string) (error : Thrown) : string :=
  match error with
  | ThrowApiError e => handleError e
  | ThrowError msg => "Failed to " +:+ context +:+ ": " +:+ msg
  end.

(** The body shared by the cached reads: look up, else call, store and
    return.  [tGet] and [tSet] are the readings of [Date.now()] in
    [getCache] and in [setCache]; [reply] is what [fetch] settles to if
    a call is issued. *)
Definition cachedRead (context cacheKey : string) (ttl_ : option Z)
    (call : Call) (tGet tSet : Z) (reply : FetchOutcome T) (svc : Service)
    : Effect :=
  let look := getCache cacheKey tGet svc in
  let onMiss :=
    match request reply with
    | inr response =>
        mkEffect (Returns (data response))
                 (setCache cacheKey (data response) ttl_ tSet look.2) [call]
    | inl e =>
        mkEffect (Throws (handleServiceError context (ThrowApiError e)))
                 look.2 [call]
    end in
  match look.1 with
  | Some cached => if truthy cached then mkEffect (Returns cached) look.2 [] else onMiss
  | None => onMiss
  end.

(** The body shared by the writes: call, then clear. *)
Definition write (context : string) (call : Call) (pattern : option string)
    (returnsData : bool) (reply : FetchOutcome T) (svc : Service) : Effect :=
  match request reply with
  | inr response =>
      mkEffect (if returnsData then Returns (data response) else ReturnsVoid)
               (clearCache pattern svc) [call]
  | inl e =>
      mkEffect (Throws (handleServiceError context (ThrowApiError e))) svc [call]
  end.

Definition optObject (params : option Obj) : Value :=
  match params with
  | Some o => VObject o
  | None => VUndefined
  end.

(** The methods.  Each takes its arguments, the two clock readings,
    the reply of [fetch] and the instance.  Request bodies do not
    influence the cache and are left out of [Call]. *)

Definition getAll (params : option Obj) (tGet tSet : Z)
    (reply : FetchOutcome T) (svc : Service) : Effect :=
  cachedRead "fetch all items"
    (getCacheKey svc "getAll" [optObject params]) None
    (mkCall GET (endpoint svc) params) tGet tSet reply svc.

Definition getById (id : string) (tGet tSet : Z)
    (reply : FetchOutcome T) (svc : Service) : Effect :=
  cachedRead ("fetch item with ID " +:+ id)
    (getCacheKey svc "getById" [VString id]) None
    (mkCall GET (endpoint svc +:+ "/" +:+ id) None) tGet tSet reply svc.

Definition create (reply : FetchOutcome T) (svc : Service) : Effect :=
  write "create new item" (mkCall POST (endpoint svc) None)
        (Some "getAll") true reply svc.

Definition update (id : string) (reply : FetchOutcome T) (svc : Service)
    : Effect :=
  write ("update item with ID " +:+ id)
        (mkCall PUT (endpoint svc +:+ "/" +:+ id) None) None true reply svc.

Definition patch (id : string) (reply : FetchOutcome T) (svc : Service)
    : Effect :=
  write ("partially update item with ID " +:+ id)
        (mkCall PATCH (endpoint svc +:+ "/" +:+ id) None) None true reply svc.

(** [delete(id)]. *)
Definition delete_ (id : string) (reply : FetchOutcome T) (svc : Service)
    : Effect :=
  write ("delete item with ID " +:+ id)
        (mkCall DELETE (endpoint svc +:+ "/" +:+ id) None) None false reply svc.

(** [exists(id)]: the inner [getById] has already replaced any error by
    an [Error] carrying the friendly message. *)
Definition exists_ (id : string) (tGet tSet : Z)
    (reply : FetchOutcome T) (svc : Service) : Effect :=
  let inner := getById id tGet tSet reply svc in
  match outcome inner with
  | Throws msg =>
      if includes msg "not found" then
        mkEffect (ReturnsBool false) (after inner) (calls inner)
      else
        mkEffect
          (Throws (handleServiceError
                     ("check if item with ID " +:+ id +:+ " exists")
                     (ThrowError msg)))
          (after inner) (calls inner)
  | _ => mkEffect (ReturnsBool true) (after inner) (calls inner)
  end.

Definition bulkCreate (reply : FetchOutcome T) (svc : Service) : Effect :=
  write "bulk create items" (mkCall POST (endpoint svc +:+ "/bulk") None)
        (Some "getAll") true reply svc.

Definition bulkUpdate (reply : FetchOutcome T) (svc : Service) : Effect :=
  write "bulk update items" (mkCall PUT (endpoint svc +:+ "/bulk") None)
        None true reply svc.

Definition bulkDelete (ids : list string) (reply : FetchOutcome T)
    (svc : Service) : Effect :=
  write "bulk delete items"
        (mkCall DELETE (endpoint svc +:+ "/bulk?ids=" +:+ join "," ids) None)
        None false reply svc.

(** [ExtendedBaseService]. *)

(** The literal TTL argument of [setCache] in [search]. *)
Definition searchTtl : Z := 60000.

Definition search (query : string) (filters : option Obj) (tGet tSet : Z)
    (reply : FetchOutcome T) (svc : Service) : Effect :=
  let params := spread [("q", query)] filters in
  cachedRead
    ("search items with query " +:+ String dquote (query +:+ String dquote ""))
    (getCacheKey svc "search" [VObject params]) (Some searchTtl)
    (mkCall GET (endpoint svc +:+ "/search") (Some params)) tGet tSet reply svc.

Definition getPaginated (page limit : option Z) (filters : option Obj)
    (tGet tSet : Z) (reply : FetchOutcome T) (svc : Service) : Effect :=
  let page := default 1 page in
  let limit := default 10 limit in
  let params := spread [("page", pretty page); ("limit", pretty limit)] filters in
  cachedRead
    ("fetch paginated results (page " +:+ pretty page +:+ ")")
    (getCacheKey svc "getPaginated" [VObject params]) None
    (mkCall GET (endpoint svc +:+ "/paginated") (Some params))
    tGet tSet reply svc.

Definition getWithRelations (id : string) (relations : list string)
    (tGet tSet : Z) (reply : FetchOutcome T) (svc : Service) : Effect :=
  let params := [("include", join "," relations)] in
  cachedRead
    ("fetch item with relations: " +:+ join ", " relations)
    (getCacheKey svc "getWithRelations" [VString id; VStrings relations]) None
    (mkCall GET (endpoint svc +:+ "/" +:+ id) (Some params))
    tGet tSet reply svc.

(** A method invocation, and a history of them. *)
Inductive Op : Type :=
| OpGetAll (params : option Obj)
| OpGetById (id : string)
| OpCreate
| OpUpdate (id : string)
| OpPatch (id : string)
| OpDelete (id : string)
| OpExists (id : string)
| OpBulkCreate
| OpBulkUpdate
| OpBulkDelete (ids : list string)
| OpSearch (query : string) (filters : option Obj)
| OpGetPaginated (page limit : option Z) (filters : option Obj)
| OpGetWithRelations (id : string) (relations : list string).

(** The reads that consult the cache. *)
Definition isRead (op : Op) : bool :=
  match op with
  | OpGetAll _ | OpGetById _ | OpExists _ | OpSearch _ _
  | OpGetPaginated _ _ _ | OpGetWithRelations _ _ => true
  | _ => false
  end.

Record Step : Type := mkStep {
  stepOp : Op;
  stepGet : Z;
  stepSet : Z;
  stepReply : FetchOutcome T
}.

Definition perform (st : Step) (svc : Service) : Effect :=
  let tGet := stepGet st in
  let tSet := stepSet st in
  let reply := stepReply st in
  match stepOp st with
  | OpGetAll params => getAll params tGet tSet reply svc
  | OpGetById id => getById id tGet tSet reply svc
  | OpCreate => create reply svc
  | OpUpdate id => update id reply svc
  | OpPatch id => patch id reply svc
  | OpDelete id => delete_ id reply svc
  | OpExists id => exists_ id tGet tSet reply svc
  | OpBulkCreate => bulkCreate reply svc
  | OpBulkUpdate => bulkUpdate reply svc
  | OpBulkDelete ids => bulkDelete ids reply svc
  | OpSearch query filters => search query filters tGet tSet reply svc
  | OpGetPaginated page limit filters =>
      getPaginated page limit filters tGet tSet reply svc
  | OpGetWithRelations id relations =>
      getWithRelations id relations tGet tSet reply svc
  end.

(** The effects of a history, oldest first. *)
Fixpoint performAll (svc : Service) (steps : list Step) : list Effect :=
  match steps with
  | [] => []
  | st :: rest =>
      let e := perform st svc in
      e :: performAll (after e) rest
  end.

(** A run of [getCache] calls on one key at the given times: the values
    returned, in order. *)
Fixpoint getCacheAt (key : string) (times : list Z) (svc : Service)
    : list (option T) :=
  match times with
  | [] => []
  | now :: rest =>
      let look := getCache key now svc in
      look.1 :: getCacheAt key rest look.2
  end.

End Service.

Arguments CacheEntry : clear implicits.
Arguments Service : clear implicits.
Arguments Outcome : clear implicits.
Arguments Effect : clear implicits.
Arguments Step : clear implicits.

End BaseService.

(** ** security.ts: [rateLimitMap], [checkRateLimit], [cleanupRateLimit] *)

Module Security.

(** [{ count: number; resetTime: number }], the value type of
    [rateLimitMap]. *)
Record RateLimitRecord : Type := mkRecord {
  count : Z;
  resetTime : Z
}.

(** [{ allowed: boolean; resetTime: number }], what [checkRateLimit]
    returns. *)
Record RateLimitResult : Type := mkResult {
  allowed : bool;
  resultResetTime : Z
}.

(** Default parameter values of [checkRateLimit]. *)
Definition defaultMaxRequests : Z := 5.
Definition defaultWindowMs : Z := 15 * 60 * 1000.

(** [const key = `rate_limit:${identifier}`] *)
Definition rateLimitKey (identifier : string) : string :=
  "rate_limit:" +:+ identifier.

(** [checkRateLimit(identifier, maxRequests, windowMs)] run at time [now]
    on the module-level map [m]; returns the result and the map after the
    call.  [current.count++] mutates the record held by the map, which is
    an update of the map at [key]. *)
Definition checkRateLimit (now : Z) (identifier : string)
    (maxRequests windowMs : Z) (m : gmap string RateLimitRecord)
    : RateLimitResult * gmap string RateLimitRecord :=
  let key := rateLimitKey identifier in
  let fresh :=
    (mkResult true (now + windowMs),
     <[key := mkRecord 1 (now + windowMs)]> m) in
  match m !! key with
  | None => fresh
  | Some current =>
      if now >? resetTime current then fresh
      else if count current >=? maxRequests then
        (mkResult false (resetTime current), m)
      else
        (mkResult true (resetTime current),
         <[key := mkRecord (count current + 1) (resetTime current)]> m)
  end.

(** [cleanupRateLimit()] run at time [now]: every record with
    [now > value.resetTime] is deleted. *)
Definition cleanupRateLimit (now : Z) (m : gmap string RateLimitRecord)
    : gmap string RateLimitRecord :=
  filter (fun kv => negb (now >? resetTime (snd kv)) = true) m.

(** One call of [checkRateLimit], as it appears in a request log. *)
Record Request : Type := mkRequest {
  reqTime : Z;
  reqIdentifier : string;
  reqMax : Z;
  reqWindow : Z
}.

(** The limiter run over a log of requests, oldest first: the list of
    (identifier, result) pairs in order, and the final map. *)
Fixpoint run (m : gmap string RateLimitRecord) (log : list Request)
    : list (string * RateLimitResult) * gmap string RateLimitRecord :=
  match log with
  | [] => ([], m)
  | r :: rest =>
      let c :=
        checkRateLimit (reqTime r) (reqIdentifier r) (reqMax r) (reqWindow r) m in
      let later := run c.2 rest in
      ((reqIdentifier r, c.1) :: later.1, later.2)
  end.

(** Projections of a log and of an outcome onto one identity. *)
Definition requestsOf (who : string) (log : list Request) : list Request :=
  List.filter (fun r => bool_decide (reqIdentifier r = who)) log.

Definition requestsNotOf (who : string) (log : list Request) : list Request :=
  List.filter (fun r => negb (bool_decide (reqIdentifier r = who))) log.

Definition resultsOf (who : string) (out : list (string * RateLimitResult))
    : list RateLimitResult :=
  map snd (List.filter (fun p => bool_decide (fst p = who)) out).

End Security.

(** ** Sample inputs on which the model is evaluated *)

Module Samples.
Import Js ApiClient BaseService.

(** Truthiness of a string. *)
Definition truthyString (s : string) : bool := negb (bool_decide (s = "")).

(** A 200 response whose JSON body decodes to [d]. *)
Definition okReply (d : string) : FetchOutcome string :=
  FetchResolves
    (mkResponse 200 "OK" (Some "application/json")
                (DecodedValue d (mkEnvelope None None None None))
                DecodeRejects).

(** [new Service({ baseEndpoint: '/guests' })] and two variants. *)
Definition guests : Service string :=
  constructor (ServiceConfig.make "/guests" None None).

Definition guestsShortLived : Service string :=
  constructor (ServiceConfig.make "/guests" (Some 30000) None).

Definition guestsUncached : ServiceConfig.t :=
  ServiceConfig.make "/guests" None (Some false).

End Samples.

(** ** api-client.ts: the remaining predicates of [ApiErrorHandler] *)

Module ApiErrorHandler.
Import ApiClient.

(** [ApiErrorHandler.isAuthenticationError]. *)
Definition isAuthenticationError (error : ApiErrorClass) : bool :=
  status error =? 401.

(** [ApiErrorHandler.isValidationError]. *)
Definition isValidationError (error : ApiErrorClass) : bool :=
  (status error =? 400) || (status error =? 422).

(** What [handleResponse] decodes: [response.json()] when the content type
    includes [application/json], [response.text()] otherwise. *)
Definition decoded {T : Type} (response : Response T) : Decoded T :=
  if match contentType response with
     | Some ct => Js.includes ct "application/json"
     | None => false
     end
  then json response else text response.

(** The text [handleError] returns for status 0. *)
Definition connectivityMessage : string :=
  "Unable to connect to the server. Please check your internet connection.".

End ApiErrorHandler.

(** ** base-service.ts: the cache slot and the call of each read *)

Module ReadSlots.
Import Js ApiClient BaseService.

(** For a method that consults the cache: the key it looks up, the [ttl]
    argument it hands to [setCache] and the [apiClient] call it issues on a
    miss, as written in the method bodies.  [exists] goes through
    [getById]. *)
Definition slotOf {T : Type} (op : Op) (svc : Service T)
    : option (string * option Z * Call) :=
  match op with
  | OpGetAll params =>
      Some (getCacheKey svc "getAll" [optObject params], None,
            mkCall GET (endpoint svc) params)
  | OpGetById id | OpExists id =>
      Some (getCacheKey svc "getById" [VString id], None,
            mkCall GET (endpoint svc +:+ "/" +:+ id) None)
  | OpSearch query filters =>
      let params := spread [("q", query)] filters in
      Some (getCacheKey svc "search" [VObject params], Some searchTtl,
            mkCall GET (endpoint svc +:+ "/search") (Some params))
  | OpGetPaginated page limit filters =>
      let params :=
        spread [("page", pretty (default 1 page)); ("limit", pretty (default 10 limit))]
               filters in
      Some (getCacheKey svc "getPaginated" [VObject params], None,
            mkCall GET (endpoint svc +:+ "/paginated") (Some params))
  | OpGetWithRelations id relations =>
      Some (getCacheKey svc "getWithRelations" [VString id; VStrings relations], None,
            mkCall GET (endpoint svc +:+ "/" +:+ id)
                   (Some [("include", join "," relations)]))
  | _ => None
  end.

(** The writes that call [clearCache()] without a pattern. *)
Definition clearsAll (op : Op) : bool :=
  match op with
  | OpUpdate _ | OpPatch _ | OpDelete _ | OpBulkUpdate | OpBulkDelete _ => true
  | _ => false
  end.

End ReadSlots.

(* ===================================================================== *)
(** * Part II.  Properties                                                *)
(* ===================================================================== *)

(** ** Strings and [JSON.stringify] *)

Module JsFacts.
Import Js.

Lemma app_nil_l (s : string) : "" +:+ s = s.
Proof. reflexivity. Qed.

Lemma app_cons (c : ascii) (a b : string) :
  String c a +:+ b = String c (a +:+ b).
Proof. reflexivity. Qed.

Lemma app_nil_r (s : string) : s +:+ "" = s.
Proof. induction s as [|c s IH]; [done|]. by rewrite app_cons, IH. Qed.

Lemma app_assoc (a b c : string) : (a +:+ b) +:+ c = a +:+ (b +:+ c).
Proof. induction a as [|x a IH]; [done|]. by rewrite !app_cons, IH. Qed.


Lemma app_inv_head (a x y : string) : a +:+ x = a +:+ y → x = y.
Proof. apply String.app_inj. Qed.


(** [includes] finds a pattern wherever it sits. *)
Lemma prefix_app (p s : string) : String.prefix p (p +:+ s) = true.
Proof.
  induction p as [|c p IH]; [by destruct s|].
  rewrite app_cons. simpl. by destruct (ascii_dec c c).
Qed.

Lemma includes_unfold (s p : string) :
  includes s p
  = if String.prefix p s then true
    else match s with
         | EmptyString => false
         | String _ rest => includes rest p
         end.
Proof. by destruct s. Qed.

Lemma includes_app_l (a s p : string) :
  includes s p = true → includes (a +:+ s) p = true.
Proof.
  intros H. induction a as [|c a IH]; [done|].
  rewrite app_cons, includes_unfold.
  by destruct (String.prefix p (String c (a +:+ s))).
Qed.

Lemma includes_infix (a p b : string) : includes (a +:+ p +:+ b) p = true.
Proof.
  apply includes_app_l. by rewrite includes_unfold, prefix_app.
Qed.

(** *** Quoting can be undone *)

Lemma unquoteBody_quoteChar (c : ascii) (tail : string) :
  unquoteBody (quoteChar c +:+ tail) = consChar c (unquoteBody tail).
Proof. destruct c as [[] [] [] [] [] [] [] []]; reflexivity. Qed.

Lemma unquoteBody_quoteBody (s rest : string) :
  unquoteBody (quoteBody s +:+ String dquote rest) = Some (s, rest).
Proof.
  induction s as [|c s IH]; [done|].
  simpl quoteBody. rewrite app_assoc, unquoteBody_quoteChar, IH. done.
Qed.

Lemma quote_app (s rest : string) :
  quote s +:+ rest = String dquote (quoteBody s +:+ String dquote rest).
Proof. unfold quote. by rewrite app_cons, app_assoc. Qed.

(** A quoted string marks its own end. *)
Lemma quote_delim (s1 s2 r1 r2 : string) :
  quote s1 +:+ r1 = quote s2 +:+ r2 → s1 = s2 ∧ r1 = r2.
Proof.
  rewrite !quote_app. intros H. injection H as H.
  apply (f_equal unquoteBody) in H.
  rewrite !unquoteBody_quoteBody in H. by simplify_eq.
Qed.

Lemma quote_inj (s1 s2 : string) : quote s1 = quote s2 → s1 = s2.
Proof.
  intros H. destruct (quote_delim s1 s2 "" ""); [|done].
  by rewrite !app_nil_r.
Qed.

(** *** Comma-separated lists closed by a bracket *)

Section Delimited.
Context {A : Type} (ser : A → string) (close : ascii).
Hypothesis ser_delim :
  ∀ a1 a2 r1 r2, ser a1 +:+ r1 = ser a2 +:+ r2 → a1 = a2 ∧ r1 = r2.
Hypothesis ser_head :
  ∀ a, ∃ c s, ser a = String c s ∧ c ≠ close.
Hypothesis close_not_comma : close ≠ ","%char.

Lemma joinRest_delim (l1 l2 : list A) (r1 r2 : string) :
  joinRest "," (map ser l1) +:+ String close r1
  = joinRest "," (map ser l2) +:+ String close r2 →
  l1 = l2 ∧ r1 = r2.
Proof.
  revert l2. induction l1 as [|a l1 IH]; intros [|b l2]; simpl.
  - rewrite !app_nil_l. intros H. by simplify_eq.
  - rewrite app_nil_l, !app_assoc, app_cons. intros H. by simplify_eq.
  - rewrite app_nil_l, !app_assoc, app_cons. intros H. by simplify_eq.
  - rewrite !app_assoc, !app_cons, !app_nil_l. intros H. injection H as H.
    apply ser_delim in H as [-> H]. apply IH in H as [-> ->]. done.
Qed.

Lemma join_delim (l1 l2 : list A) (r1 r2 : string) :
  join "," (map ser l1) +:+ String close r1
  = join "," (map ser l2) +:+ String close r2 →
  l1 = l2 ∧ r1 = r2.
Proof.
  destruct l1 as [|a l1], l2 as [|b l2]; simpl.
  - rewrite !app_nil_l. intros H. by simplify_eq.
  - rewrite app_nil_l, app_assoc.
    destruct (ser_head b) as (c & s & -> & Hc). rewrite app_cons.
    intros H. by simplify_eq.
  - rewrite app_nil_l, app_assoc.
    destruct (ser_head a) as (c & s & -> & Hc). rewrite app_cons.
    intros H. by simplify_eq.
  - rewrite !app_assoc. intros H.
    apply ser_delim in H as [-> H].
    apply joinRest_delim in H as [-> ->]. done.
Qed.

(** [open ++ join "," items ++ close] followed by anything. *)
Lemma bracket_delim (open : ascii) (l1 l2 : list A) (r1 r2 : string) :
  (String open "" +:+ join "," (map ser l1) +:+ String close "") +:+ r1
  = (String open "" +:+ join "," (map ser l2) +:+ String close "") +:+ r2 →
  l1 = l2 ∧ r1 = r2.
Proof.
  rewrite !app_assoc, !app_cons, !app_nil_l. intros H. injection H as H.
  by apply join_delim.
Qed.
End Delimited.

(** *** [JSON.stringify] on argument lists *)

Lemma quote_head (x : string) (close : ascii) :
  close ≠ dquote → ∃ c s, quote x = String c s ∧ c ≠ close.
Proof. intros H. eexists _, _. split; [reflexivity|]. congruence. Qed.

Lemma stringifyProp_delim (kv1 kv2 : string * string) (r1 r2 : string) :
  stringifyProp kv1 +:+ r1 = stringifyProp kv2 +:+ r2 → kv1 = kv2 ∧ r1 = r2.
Proof.
  destruct kv1 as [k1 v1], kv2 as [k2 v2]. unfold stringifyProp; simpl.
  rewrite !app_assoc. intros H.
  apply quote_delim in H as [-> H].
  apply app_inv_head in H.
  apply quote_delim in H as [-> ->]. done.
Qed.

Lemma stringifyProp_head (kv : string * string) (close : ascii) :
  close ≠ dquote → ∃ c s, stringifyProp kv = String c s ∧ c ≠ close.
Proof.
  intros H. unfold stringifyProp. rewrite quote_app.
  eexists _, _. split; [reflexivity|]. congruence.
Qed.

Lemma stringifyValue_head (v : Value) :
  ∃ c s, stringifyValue v = String c s ∧ c ≠ "]"%char.
Proof.
  destruct v; simpl.
  - by eexists _, _.
  - by apply quote_head.
  - rewrite app_cons. by eexists _, _.
  - rewrite app_cons. by eexists _, _.
Qed.

Lemma stringifyValue_delim (v1 v2 : Value) (r1 r2 : string) :
  stringifyValue v1 +:+ r1 = stringifyValue v2 +:+ r2 → v1 = v2 ∧ r1 = r2.
Proof.
  destruct v1 as [|s1|l1|o1], v2 as [|s2|l2|o2]; simpl; intros H;
    try (rewrite ?quote_app, ?app_cons in H; discriminate H).
  - apply app_inv_head in H. by subst.
  - apply quote_delim in H as [-> ->]. done.
  - apply (bracket_delim quote "]"%char) in H as [-> ->]; try done.
    + apply quote_delim.
    + intros a. by apply quote_head.
  - apply (bracket_delim stringifyProp "}"%char) in H as [-> ->]; try done.
    + apply stringifyProp_delim.
    + intros a. by apply stringifyProp_head.
Qed.

(** Distinct argument lists have distinct serialisations. *)
Lemma stringify_inj (p q : list Value) : stringify p = stringify q → p = q.
Proof.
  unfold stringify. intros H.
  destruct (bracket_delim stringifyValue "]"%char stringifyValue_delim
              stringifyValue_head ltac:(done) "["%char p q "" "") as [-> _];
    [by rewrite !app_nil_r | done].
Qed.

End JsFacts.

(** ** api-client.ts *)

Module ApiClientFacts.
Import Js ApiClient JsFacts.

Section Transport.
Context {T : Type}.
Implicit Types (response : Response T) (reply : FetchOutcome T).

(** [handleResponse] on its own reports the status of the response in
    every [ApiErrorClass] it throws, with the message of the server
    when it is non-empty and with [errors], else [details]. *)
Lemma handleResponse_error_status response e :
  handleResponse response = inl (ThrowApiError e) → status e = httpStatus response.
Proof.
  unfold handleResponse.
  destruct (if match contentType response with
               | Some ct => includes ct "application/json"
               | None => false
               end then json response else text response) as [|msg|d env];
    [| |destruct (negb (ok response))]; intros H; by simplify_eq.
Qed.

(** Whatever [request] throws has status 0, code [NETWORK_ERROR] and no
    details, also when a response was received. *)
Lemma request_error_shape reply e :
  request reply = inl e →
  status e = 0 ∧ code e = Some "NETWORK_ERROR" ∧ details e = None.
Proof.
  unfold request. destruct reply as [msg|response].
  - intros H. by simplify_eq.
  - destruct (handleResponse response); intros H; by simplify_eq.
Qed.
End Transport.

(** C1 (the code departs from the claim): a 404 response with a JSON
    error body.  [handleResponse] builds the error the claim describes,
    and the [catch] of [request] replaces it by a status-0
    [NETWORK_ERROR] without details. *)
Theorem request_masks_response_status :
  let body : Decoded unit :=
    DecodedValue tt (mkEnvelope (Some "Guest not found") (Some "NOT_FOUND")
                                (Some [("id", ["unknown id"])]) None) in
  let response := mkResponse 404 "Not Found" (Some "application/json")
                             body DecodeRejects in
  handleResponse response
  = inl (ThrowApiError (mkApiError "Guest not found" 404 (Some "NOT_FOUND")
                                   (Some [("id", ["unknown id"])])))
  ∧ request (FetchResolves response)
    = inl (mkApiError "Guest not found" 0 (Some "NETWORK_ERROR") None).
Proof. split; reflexivity. Qed.

(** The same for a body that does not parse. *)
Lemma request_masks_parse_failure :
  let response : Response unit :=
    mkResponse 502 "Bad Gateway" (Some "application/json")
               DecodeRejects DecodeRejects in
  request (FetchResolves response)
  = inl (mkApiError "Failed to parse response" 0 (Some "NETWORK_ERROR") None).
Proof. reflexivity. Qed.

(** *** [ApiErrorHandler.handleError] *)

Lemma orString_nonempty (a : option string) (b : string) :
  b ≠ "" → orString a b ≠ "".
Proof.
  intros Hb. unfold orString. destruct a as [s|]; [|done].
  by case_bool_decide.
Qed.

(** Without [details] the mapping never yields the empty string. *)
Lemma handleError_nonempty_no_details (error : ApiErrorClass) :
  details error = None → handleError error ≠ "".
Proof.
  intros Hd. unfold handleError. rewrite Hd.
  destruct (status error) as [|p|p]; try done;
    try (by apply orString_nonempty);
    repeat (destruct p as [p|p|]; try done; try (by apply orString_nonempty)).
Qed.

(** C5 (the code departs from the claim): a 400 error whose [details]
    object is empty is mapped to the empty string. *)
Theorem handleError_empty_details :
  handleError (mkApiError "Bad Request" 400 None (Some [])) = ""
  ∧ handleError (mkApiError "Unprocessable" 422 None (Some [("email", [])])) = "".
Proof. split; reflexivity. Qed.

End ApiClientFacts.

(** ** base-service.ts *)

Module BaseServiceFacts.
Import Js ApiClient BaseService JsFacts.

(** *** Cache keys *)

Section Keys.
Context {T : Type}.
Implicit Types svc : Service T.



Lemma getCacheKey_params_inj svc method params params' :
  getCacheKey svc method params = getCacheKey svc method params' →
  params = params'.
Proof.
  unfold getCacheKey. intros H.
  apply app_inv_head, app_inv_head, app_inv_head, app_inv_head in H.
  by apply stringify_inj.
Qed.

(** Every key contains the name of the method it was built for. *)
Lemma getCacheKey_includes_method svc method params :
  includes (getCacheKey svc method params) method = true.
Proof.
  unfold getCacheKey.
  rewrite <- (app_assoc (endpoint svc) ":" (method +:+ ":" +:+ stringify params)).
  apply includes_infix.
Qed.
End Keys.


(** Keys are not injective on the triple as a whole: a colon may move
    between the endpoint and the method. *)
Lemma getCacheKey_joint_collision :
  let svc1 : Service unit := constructor (ServiceConfig.make "/a:b" None None) in
  let svc2 : Service unit := constructor (ServiceConfig.make "/a" None None) in
  getCacheKey svc1 "c" [] = getCacheKey svc2 "b:c" [].
Proof. reflexivity. Qed.



(** *** The expiring cache *)

Section Cache.
Context {T : Type}.
Implicit Types (svc : Service T) (d : T) (key : string).

Lemma getCache_absent key now svc :
  cache svc !! key = None → getCache key now svc = (None, svc).
Proof.
  intros H. unfold getCache. rewrite H. by destruct (negb (enableCache svc)).
Qed.

Lemma getCache_disabled key now svc :
  enableCache svc = false → getCache key now svc = (None, svc).
Proof. intros H. unfold getCache. by rewrite H. Qed.

Lemma setCache_disabled key d ttl_ now svc :
  enableCache svc = false → setCache key d ttl_ now svc = svc.
Proof. intros H. unfold setCache. by rewrite H. Qed.

Lemma setCache_lookup key d ttl_ t0 svc :
  enableCache svc = true →
  cache (setCache key d ttl_ t0 svc) !! key
  = Some (mkEntry d t0 (orNumber ttl_ (cacheTimeout svc))).
Proof.
  intros H. unfold setCache. rewrite H. simpl. apply lookup_insert_eq.
Qed.

Lemma setCache_enableCache key d ttl_ t0 svc :
  enableCache (setCache key d ttl_ t0 svc) = enableCache svc.
Proof. unfold setCache. by destruct (enableCache svc) eqn:E. Qed.

Lemma getCache_enableCache key now svc :
  enableCache (getCache key now svc).2 = enableCache svc.
Proof.
  unfold getCache. destruct (enableCache svc) eqn:E; [|done]. simpl.
  destruct (cache svc !! key) as [e|]; [|done].
  by destruct (now - timestamp e >? ttl e).
Qed.

Lemma getCache_absent_after key now svc :
  (getCache key now svc).1 = None →
  enableCache svc = true →
  cache (getCache key now svc).2 !! key = None.
Proof.
  unfold getCache. intros H Hen. rewrite Hen in *. simpl in *.
  destruct (cache svc !! key) as [e|] eqn:E; simpl in *; [|done].
  destruct (now - timestamp e >? ttl e); simpl in *; [|done].
  apply lookup_delete_eq.
Qed.

(** What [getCache] does with a present entry, caching enabled. *)
Lemma getCache_present key now svc e :
  enableCache svc = true → cache svc !! key = Some e →
  getCache key now svc
  = if now - timestamp e >? ttl e
    then (None, withCache svc (delete key (cache svc)))
    else (Some (entryData e), svc).
Proof. intros H1 H2. unfold getCache. by rewrite H1, H2. Qed.

(** C3 (amended): with caching enabled, [getCache] returns the value of
    the latest [setCache] on the key exactly while
    [now - timestamp <= ttl], where [ttl] is the one given to
    [setCache] or, if none (or 0) was given, the instance's
    [cacheTimeout]; such a lookup changes nothing.  Once
    [now - timestamp > ttl] the lookup deletes the entry and returns
    [null], and so does every later lookup on the instance it leaves. *)
Theorem getCache_after_setCache key d ttl_ t0 now svc :
  enableCache svc = true →
  let stored := setCache key d ttl_ t0 svc in
  let lifetime := orNumber ttl_ (cacheTimeout svc) in
  let look := getCache key now stored in
  (look.1 = Some d ↔ now - t0 ≤ lifetime)
  ∧ (now - t0 ≤ lifetime → look.2 = stored)
  ∧ (lifetime < now - t0 →
       look.1 = None ∧ cache look.2 !! key = None
       ∧ ∀ later, getCache key later look.2 = (None, look.2)).
Proof.
  intros Hen stored lifetime look.
  assert (Hlook : look
                  = if now - t0 >? lifetime
                    then (None, withCache stored (delete key (cache stored)))
                    else (Some d, stored)).
  { unfold look.
    rewrite (getCache_present key now stored (mkEntry d t0 lifetime)); [done| |].
    - unfold stored. by rewrite setCache_enableCache.
    - by apply setCache_lookup. }
  rewrite Hlook. destruct (now - t0 >? lifetime) eqn:E; simpl.
  - apply Z.gtb_lt in E. split_and!; [split; [done|lia] | lia |].
    intros _. split_and!; [done | apply lookup_delete_eq |].
    intros later. apply getCache_absent. simpl. apply lookup_delete_eq.
  - rewrite Z.gtb_ltb in E. apply Z.ltb_ge in E.
    split_and!; [done | done | lia].
Qed.

(** Lookups on a key whose entry, if any, was stored at [t0] with a
    negative [ttl] all come back empty, as long as the clock does not
    run backwards past [t0]. *)
Lemma getCacheAt_negative_ttl key t0 times :
  ∀ svc,
    (enableCache svc = true →
     ∀ e, cache svc !! key = Some e → timestamp e = t0 ∧ ttl e < 0) →
    Forall (λ now, t0 ≤ now) times →
    getCacheAt key times svc = map (λ _, None) times.
Proof.
  induction times as [|now rest IH]; intros svc Hinv Htimes; [done|].
  apply Forall_cons in Htimes as [Hnow Hrest]. simpl.
  destruct (enableCache svc) eqn:Hen.
  - destruct (cache svc !! key) as [e|] eqn:He.
    + destruct (Hinv eq_refl e eq_refl) as [Ht Httl].
      rewrite (getCache_present key now svc e Hen He).
      destruct (now - timestamp e >? ttl e) eqn:E.
      * simpl. f_equal. apply IH; [|done].
        intros _ e'. simpl. by rewrite lookup_delete_eq.
      * rewrite Z.gtb_ltb in E. apply Z.ltb_ge in E. lia.
    + rewrite getCache_absent by done. simpl. f_equal. apply IH; [|done].
      intros _ e'. by rewrite He.
  - rewrite getCache_disabled by done. simpl. f_equal. apply IH; [|done].
    intros Hen'. congruence.
Qed.

(** C7 (amended): an entry stored with a negative [ttl] is never
    served by a lookup made at or after the time of the store, and
    neither [setCache] nor [getCache] throws; a [ttl] of 0 is the same
    as no [ttl], that is the instance's [cacheTimeout]. *)
Theorem setCache_negative_or_zero_ttl key d ttl_ t0 times svc :
  (ttl_ < 0 → Forall (λ now, t0 ≤ now) times →
     getCacheAt key times (setCache key d (Some ttl_) t0 svc)
     = map (λ _, None) times)
  ∧ setCache key d (Some 0) t0 svc = setCache key d None t0 svc.
Proof.
  split; [|done].
  intros Hneg Htimes. apply (getCacheAt_negative_ttl key t0); [|done].
  rewrite setCache_enableCache. intros Hen e.
  rewrite setCache_lookup by done. intros [= <-]. simpl. split; [done|].
  unfold orNumber. destruct (ttl_ =? 0) eqn:E; [|done].
  apply Z.eqb_eq in E. lia.
Qed.

End Cache.

(** C3, the instant at which the claim fails: exactly [ttl]
    milliseconds after the store, [now - storedAt < ttl] is false and
    the value is still served. *)
Lemma getCache_serves_at_ttl :
  let svc : Service string := constructor (ServiceConfig.make "/guests" None None) in
  let stored := setCache "k" "guest list" (Some 1000) 5000 svc in
  ¬ (6000 - 5000 < 1000)
  ∧ (getCache "k" 6000 stored).1 = Some "guest list".
Proof. split; [lia | reflexivity]. Qed.

Lemma getCache_after_setCache_witness :
  let svc : Service string := constructor (ServiceConfig.make "/guests" None None) in
  let stored := setCache "k" "guest list" (Some 1000) 5000 svc in
  ((getCache "k" 6000 stored).1 = Some "guest list" ↔ 6000 - 5000 ≤ 1000)
  ∧ (6000 - 5000 ≤ 1000 → (getCache "k" 6000 stored).2 = stored)
  ∧ (1000 < 6000 - 5000 →
       (getCache "k" 6000 stored).1 = None
       ∧ cache (getCache "k" 6000 stored).2 !! "k" = None
       ∧ ∀ later, getCache "k" later (getCache "k" 6000 stored).2
                  = (None, (getCache "k" 6000 stored).2)).
Proof.
  intros svc stored.
  apply (getCache_after_setCache "k" "guest list" (Some 1000) 5000 6000 svc).
  reflexivity.
Defined.

(** C7, the half that fails: a [ttl] of 0 is falsy, so the entry gets
    the default lifetime and is served. *)
Lemma setCache_zero_ttl_is_served :
  let svc : Service string := constructor (ServiceConfig.make "/guests" None None) in
  let stored := setCache "k" "guest list" (Some 0) 5000 svc in
  (getCache "k" 5001 stored).1 = Some "guest list"
  ∧ (getCache "k" 305000 stored).1 = Some "guest list".
Proof. split; reflexivity. Qed.

Lemma setCache_negative_or_zero_ttl_witness :
  let svc : Service string := constructor (ServiceConfig.make "/guests" None None) in
  getCacheAt "k" [5000; 5001; 9000] (setCache "k" "guest list" (Some (-1)) 5000 svc)
  = [None; None; None].
Proof.
  intros svc.
  apply (proj1 (setCache_negative_or_zero_ttl "k" "guest list" (-1) 5000
                  [5000; 5001; 9000] svc)).
  - lia.
  - repeat constructor; lia.
Defined.


(** *** Invalidation and the methods *)

Section Dispatcher.
Context {T : Type} (truthy : T → bool).
Implicit Types (svc : Service T) (d : T) (key : string)
               (reply : FetchOutcome T) (c : gmap string (CacheEntry T)).

Lemma deleteMatching_keeps pattern keys c k :
  includes k pattern = false → deleteMatching pattern keys c !! k = c !! k.
Proof.
  intros Hk. unfold deleteMatching. revert c.
  induction keys as [|key keys IH]; intros c; [done|]. simpl.
  rewrite IH. destruct (includes key pattern) eqn:E; [|done].
  apply lookup_delete_ne. intros ->. congruence.
Qed.

Lemma deleteMatching_absent pattern keys c k :
  c !! k = None → deleteMatching pattern keys c !! k = None.
Proof.
  unfold deleteMatching. revert c.
  induction keys as [|key keys IH]; intros c Hc; [done|]. simpl.
  apply IH. destruct (includes key pattern); [|done].
  rewrite lookup_delete. by case_decide.
Qed.

Lemma deleteMatching_deletes pattern keys c k :
  includes k pattern = true → k ∈ keys →
  deleteMatching pattern keys c !! k = None.
Proof.
  intros Hk. unfold deleteMatching. revert c.
  induction keys as [|key keys IH]; intros c Hin.
  - by apply elem_of_nil in Hin.
  - simpl. apply elem_of_cons in Hin as [<- | Hin].
    + rewrite Hk. apply deleteMatching_absent, lookup_delete_eq.
    + by apply IH.
Qed.

(** [clearCache(pattern)] removes exactly the keys that include the
    pattern. *)
Lemma clearCache_lookup pattern svc k :
  pattern ≠ "" →
  cache (clearCache (Some pattern) svc) !! k
  = if includes k pattern then None else cache svc !! k.
Proof.
  intros Hp. unfold clearCache. rewrite bool_decide_false by done. simpl.
  destruct (includes k pattern) eqn:Hk.
  - destruct (cache svc !! k) as [e|] eqn:He.
    + apply deleteMatching_deletes; [done|].
      apply list_elem_of_fmap. exists (k, e). split; [done|].
      by apply elem_of_map_to_list.
    + by apply deleteMatching_absent.
  - by apply deleteMatching_keeps.
Qed.

Lemma clearCache_fields pattern svc :
  endpoint (clearCache pattern svc) = endpoint svc
  ∧ enableCache (clearCache pattern svc) = enableCache svc
  ∧ cacheTimeout (clearCache pattern svc) = cacheTimeout svc.
Proof.
  unfold clearCache. destruct pattern as [p|]; [|done].
  by case_bool_decide.
Qed.

Lemma clearCache_empty pattern svc :
  cache svc = ∅ → cache (clearCache pattern svc) = ∅.
Proof.
  intros H. unfold clearCache. destruct pattern as [p|]; [|done].
  case_bool_decide; [done|]. simpl. rewrite H, map_to_list_empty. done.
Qed.

Lemma getCache_fields key now svc :
  endpoint (getCache key now svc).2 = endpoint svc
  ∧ cacheTimeout (getCache key now svc).2 = cacheTimeout svc.
Proof.
  unfold getCache. destruct (negb (enableCache svc)); [done|].
  destruct (cache svc !! key) as [e|]; [|done].
  by destruct (now - timestamp e >? ttl e).
Qed.

(** The value [getCache] returns depends on the instance only through
    the enable flag and the entry under the key. *)
Lemma getCache_fst_ext key now svc svc' :
  enableCache svc = enableCache svc' →
  cache svc !! key = cache svc' !! key →
  (getCache key now svc).1 = (getCache key now svc').1.
Proof.
  intros H1 H2. unfold getCache. rewrite <- H1, <- H2.
  destruct (negb (enableCache svc)); [done|].
  destruct (cache svc !! key) as [e|]; [|done].
  by destruct (now - timestamp e >? ttl e).
Qed.

(** A read that finds nothing usable issues exactly its call. *)
Lemma cachedRead_miss context key ttl_ call tGet tSet reply svc :
  (getCache key tGet svc).1 = None →
  calls (cachedRead truthy context key ttl_ call tGet tSet reply svc) = [call].
Proof.
  intros H. unfold cachedRead. rewrite H. by destruct (request reply).
Qed.

(** A read that finds a truthy value returns it and issues no call. *)
Lemma cachedRead_hit context key ttl_ call tGet tSet reply svc d :
  (getCache key tGet svc).1 = Some d → truthy d = true →
  outcome (cachedRead truthy context key ttl_ call tGet tSet reply svc) = Returns d
  ∧ calls (cachedRead truthy context key ttl_ call tGet tSet reply svc) = [].
Proof. intros H Ht. unfold cachedRead. by rewrite H, Ht. Qed.

(** A read that had to call and succeeded leaves its entry behind. *)
Lemma cachedRead_stores context key ttl_ call tGet tSet reply svc d :
  enableCache svc = true →
  outcome (cachedRead truthy context key ttl_ call tGet tSet reply svc) = Returns d →
  calls (cachedRead truthy context key ttl_ call tGet tSet reply svc) ≠ [] →
  cache (after (cachedRead truthy context key ttl_ call tGet tSet reply svc)) !! key
  = Some (mkEntry d tSet (orNumber ttl_ (cacheTimeout svc))).
Proof.
  intros Hen. unfold cachedRead.
  assert (Hstore : ∀ response : ApiResponse T,
             cache (setCache key (data response) ttl_ tSet (getCache key tGet svc).2) !! key
             = Some (mkEntry (data response) tSet (orNumber ttl_ (cacheTimeout svc)))).
  { intros response. rewrite setCache_lookup.
    - by rewrite (proj2 (getCache_fields key tGet svc)).
    - by rewrite getCache_enableCache. }
  destruct ((getCache key tGet svc).1) as [cached|].
  - destruct (truthy cached); simpl; [done|].
    destruct (request reply) as [e|response]; simpl; [done|].
    intros [= <-] _. apply Hstore.
  - destruct (request reply) as [e|response]; simpl; [done|].
    intros [= <-] _. apply Hstore.
Qed.

Lemma cachedRead_disabled context key ttl_ call tGet tSet reply svc :
  enableCache svc = false →
  after (cachedRead truthy context key ttl_ call tGet tSet reply svc) = svc
  ∧ calls (cachedRead truthy context key ttl_ call tGet tSet reply svc) = [call].
Proof.
  intros Hen. unfold cachedRead. rewrite getCache_disabled by done. simpl.
  destruct (request reply) as [e|response]; simpl; [done|].
  by rewrite setCache_disabled.
Qed.

Lemma write_effect context call pattern returnsData reply svc :
  calls (write context call pattern returnsData reply svc) = [call]
  ∧ (after (write context call pattern returnsData reply svc) = svc
     ∨ after (write context call pattern returnsData reply svc)
       = clearCache pattern svc).
Proof. unfold write. destruct (request reply); simpl; auto. Qed.

Lemma write_returns context call pattern reply svc d :
  outcome (write context call pattern true reply svc) = Returns d →
  after (write context call pattern true reply svc) = clearCache pattern svc.
Proof. unfold write. by destruct (request reply). Qed.

(** C6 (amended): after a [create] that returned, no [getAll] entry of
    the instance is left, so the next [getAll] issues its call; every
    [getById] entry whose key does not contain the text [getAll] is
    still served as before, a truthy one without any call. *)
Theorem create_invalidates_getAll reply svc d :
  outcome (create reply svc) = Returns d →
  let svc' := after (create reply svc) in
  (∀ params, cache svc' !! getCacheKey svc' "getAll" [optObject params] = None)
  ∧ (∀ params tGet tSet reply',
       calls (getAll truthy params tGet tSet reply' svc')
       = [mkCall GET (endpoint svc') params])
  ∧ (∀ id now d0,
       includes (getCacheKey svc "getById" [VString id]) "getAll" = false →
       (getCache (getCacheKey svc "getById" [VString id]) now svc).1 = Some d0 →
       (getCache (getCacheKey svc' "getById" [VString id]) now svc').1 = Some d0
       ∧ (truthy d0 = true → ∀ tSet reply',
            outcome (getById truthy id now tSet reply' svc') = Returns d0
            ∧ calls (getById truthy id now tSet reply' svc') = [])).
Proof.
  intros Hret svc'.
  assert (Hsvc' : svc' = clearCache (Some "getAll") svc)
    by (by apply write_returns in Hret).
  destruct (clearCache_fields (Some "getAll") svc) as (Hep & Hen & _).
  assert (Hgone : ∀ params,
             cache svc' !! getCacheKey svc' "getAll" [optObject params] = None).
  { intros params. rewrite Hsvc', clearCache_lookup by done.
    by rewrite getCacheKey_includes_method. }
  split_and!; [done | |].
  - intros params tGet tSet reply'. unfold getAll.
    apply cachedRead_miss. by rewrite getCache_absent.
  - intros id now d0 Hkey Hhit.
    assert (Hsame : getCacheKey svc' "getById" [VString id]
                    = getCacheKey svc "getById" [VString id])
      by (unfold getCacheKey; by rewrite Hsvc', Hep).
    assert (Hhit' : (getCache (getCacheKey svc' "getById" [VString id]) now svc').1
                    = Some d0).
    { rewrite Hsame, <- Hhit. apply getCache_fst_ext.
      - by rewrite Hsvc', Hen.
      - rewrite Hsvc', clearCache_lookup by done. by rewrite Hkey. }
    split; [done|]. intros Ht tSet reply'. unfold getById.
    by apply cachedRead_hit.
Qed.

(** C8 (amended): a [search] that had to call and succeeded stores its
    result with the fixed [ttl] of 60000 ms, whatever the instance's
    [cacheTimeout]; a [getAll] stores with [cacheTimeout], whose
    default of 300000 ms is five times the [ttl] of [search]. *)
Theorem search_ttl_fixed query filters params tGet tSet reply svc d :
  enableCache svc = true →
  let s := search truthy query filters tGet tSet reply svc in
  let g := getAll truthy params tGet tSet reply svc in
  (outcome s = Returns d → calls s ≠ [] →
     ttl <$> cache (after s)
               !! getCacheKey svc "search" [VObject (spread [("q", query)] filters)]
     = Some 60000)
  ∧ (outcome g = Returns d → calls g ≠ [] →
       ttl <$> cache (after g) !! getCacheKey svc "getAll" [optObject params]
       = Some (cacheTimeout svc))
  ∧ (∀ ep en,
       cacheTimeout (constructor (T:=T) (ServiceConfig.make ep None en)) = 5 * 60000).
Proof.
  intros Hen s g. split_and!.
  - intros Hout Hcalls. subst s. unfold search in *. cbv zeta in *.
    by rewrite (cachedRead_stores _ _ _ _ _ _ _ _ d Hen Hout Hcalls).
  - intros Hout Hcalls. subst g. unfold getAll in *.
    by rewrite (cachedRead_stores _ _ _ _ _ _ _ _ d Hen Hout Hcalls).
  - done.
Qed.

Lemma clearCache_of_empty pattern svc :
  cache svc = ∅ → clearCache pattern svc = svc.
Proof.
  destruct svc as [ep c ct en]. simpl. intros ->.
  unfold clearCache, withCache. simpl. destruct pattern as [p|]; [|done].
  case_bool_decide; [done|]. by rewrite map_to_list_empty.
Qed.

(** With caching off and an empty cache, a method leaves the instance as
    it is and issues exactly one call. *)
Lemma perform_disabled st svc :
  enableCache svc = false → cache svc = ∅ →
  after (perform truthy st svc) = svc
  ∧ ∃ call, calls (perform truthy st svc) = [call].
Proof.
  intros Hen Hc.
  assert (Hread : ∀ context key ttl_ call tGet tSet reply,
             let e := cachedRead truthy context key ttl_ call tGet tSet reply svc in
             after e = svc ∧ ∃ call', calls e = [call']).
  { intros context key ttl_ call tGet tSet reply e.
    destruct (cachedRead_disabled context key ttl_ call tGet tSet reply svc Hen)
      as [Ha Hcalls].
    unfold e. rewrite Ha, Hcalls. eauto. }
  assert (Hwrite : ∀ context call pattern returnsData reply,
             let e := write context call pattern returnsData reply svc in
             after e = svc ∧ ∃ call', calls e = [call']).
  { intros context call pattern returnsData reply e.
    destruct (write_effect context call pattern returnsData reply svc)
      as [Hcalls [Ha | Ha]]; unfold e; rewrite Ha, Hcalls.
    - eauto.
    - rewrite clearCache_of_empty by done. eauto. }
  unfold perform.
  destruct (stepOp st); try apply Hread; try apply Hwrite.
  unfold exists_.
  destruct (Hread ("fetch item with ID " +:+ id)
              (getCacheKey svc "getById" [VString id]) None
              (mkCall GET (endpoint svc +:+ "/" +:+ id) None)
              (stepGet st) (stepSet st) (stepReply st)) as (H1 & H2).
  fold (getById truthy id (stepGet st) (stepSet st) (stepReply st) svc) in *.
  destruct (outcome (getById truthy id (stepGet st) (stepSet st) (stepReply st) svc))
    as [msg| | |]; [destruct (includes msg "not found")|..]; done.
Qed.

(** C10: on an instance constructed with [enableCache: false],
    [setCache] does nothing and [getCache] returns [null]; along every
    history of method calls the instance stays as constructed, its cache
    empty, and every read ([getAll], [getById], [exists], [search],
    [getPaginated], [getWithRelations]) issues a transport call. *)
Theorem caching_disabled config steps :
  ServiceConfig.enableCache config = Some false →
  let svc := constructor (T:=T) config in
  (∀ key d ttl_ now, setCache key d ttl_ now svc = svc
                     ∧ getCache key now svc = (None, svc))
  ∧ Forall (λ e, after e = svc ∧ cache (after e) = ∅)
           (performAll truthy svc steps)
  ∧ Forall2 (λ st e, isRead (stepOp st) = true → ∃ call, calls e = [call])
            steps (performAll truthy svc steps).
Proof.
  intros Hcfg svc.
  assert (Hen : enableCache svc = false) by (unfold svc, constructor; by rewrite Hcfg).
  assert (Hc : cache svc = ∅) by done.
  split_and!.
  - intros key d ttl_ now. by rewrite setCache_disabled, getCache_disabled.
  - clearbody svc.
    induction steps as [|st rest IH]; simpl; [constructor|].
    destruct (perform_disabled st svc Hen Hc) as (H1 & _).
    rewrite H1. constructor; [by rewrite H1|]. apply IH.
  - clearbody svc.
    induction steps as [|st rest IH]; simpl; [constructor|].
    destruct (perform_disabled st svc Hen Hc) as (H1 & H3).
    rewrite H1. constructor; [done|]. apply IH.
Qed.

End Dispatcher.

Import Samples.

(** C6, the part that fails: the item whose id is the text [getAll] is
    cached by [getById], served from the cache, and after a [create]
    fetched again. *)
Lemma create_drops_getById_entry :
  let cached := after (getById truthyString "getAll" 1000 1001 (okReply "Ann") guests) in
  let created := create (okReply "Bob") cached in
  calls (getById truthyString "getAll" 2000 2001 (okReply "Ann") cached) = []
  ∧ outcome created = Returns "Bob"
  ∧ (getCache (getCacheKey guests "getById" [VString "getAll"]) 2000 (after created)).1
    = None
  ∧ calls (getById truthyString "getAll" 2000 2001 (okReply "Ann") (after created))
    = [mkCall GET "/guests/getAll" None].
Proof. by vm_compute. Qed.

Lemma create_invalidates_getAll_witness :
  let cached := after (getById truthyString "7" 1000 1001 (okReply "Ann") guests) in
  let svc' := after (create (okReply "Bob") cached) in
  (getCache (getCacheKey svc' "getById" [VString "7"]) 2000 svc').1 = Some "Ann"
  ∧ (∀ tSet reply',
       outcome (getById truthyString "7" 2000 tSet reply' svc') = Returns "Ann"
       ∧ calls (getById truthyString "7" 2000 tSet reply' svc') = []).
Proof.
  intros cached svc'.
  destruct (create_invalidates_getAll truthyString (okReply "Bob") cached "Bob" eq_refl)
    as (_ & _ & Hkeep).
  destruct (Hkeep "7" 2000 "Ann") as [Hhit Hserve].
  - by vm_compute.
  - by vm_compute.
  - split; [exact Hhit|]. apply Hserve. reflexivity.
Defined.

(** C8, where the claim fails: 60000 ms is a fifth, not a twelfth, of
    the default; and with [cacheTimeout: 30000] a [search] result is kept
    twice as long as a [getAll] result. *)
Lemma search_ttl_not_shorter :
  let s := after (search truthyString "ann" None 0 1 (okReply "Ann") guestsShortLived) in
  let g := after (getAll truthyString None 0 1 (okReply "Ann") guestsShortLived) in
  ttl <$> cache s !! getCacheKey guestsShortLived "search" [VObject [("q", "ann")]]
  = Some 60000
  ∧ ttl <$> cache g !! getCacheKey guestsShortLived "getAll" [VUndefined] = Some 30000
  ∧ ¬ (60000 < 30000)
  ∧ cacheTimeout guests = 300000
  ∧ 2 * (cacheTimeout guests / 12) < searchTtl.
Proof. by vm_compute. Qed.

Lemma search_ttl_fixed_witness :
  let s := search truthyString "ann" None 0 1 (okReply "Ann") guests in
  ttl <$> cache (after s) !! getCacheKey guests "search" [VObject [("q", "ann")]]
  = Some 60000.
Proof.
  intros s.
  apply (proj1 (search_ttl_fixed truthyString "ann" None None 0 1 (okReply "Ann")
                  guests "Ann" eq_refl)).
  - reflexivity.
  - discriminate.
Defined.

Lemma caching_disabled_witness :
  let steps :=
    [ mkStep (OpGetAll None) 0 1 (okReply "all");
      mkStep (OpGetAll None) 2 3 (okReply "all");
      mkStep OpCreate 4 5 (okReply "Bob");
      mkStep (OpSearch "bob" None) 6 7 (okReply "Bob") ] in
  Forall (λ e, after e = constructor guestsUncached ∧ cache (after e) = ∅)
         (performAll truthyString (constructor guestsUncached) steps)
  ∧ Forall2 (λ st e, isRead (stepOp st) = true → ∃ call, calls e = [call])
            steps (performAll truthyString (constructor guestsUncached) steps).
Proof.
  intros steps.
  apply (proj2 (caching_disabled truthyString guestsUncached steps eq_refl)).
Defined.

End BaseServiceFacts.

Module SecurityFacts.
Import Security.

Example checkRateLimit_first :
  checkRateLimit 1000 "ip" 5 900000 ∅
  = (mkResult true 901000, {[ "rate_limit:ip" := mkRecord 1 901000 ]}).
Proof. reflexivity. Qed.

(** The map key is an injective function of the identifier. *)
Lemma rateLimitKey_inj (a b : string) :
  rateLimitKey a = rateLimitKey b → a = b.
Proof. unfold rateLimitKey; simpl. intros H. by simplify_eq. Qed.

(** A call touches no key but its own. *)
Lemma checkRateLimit_frame now id maxR win (m : gmap string RateLimitRecord) k :
  k ≠ rateLimitKey id →
  (checkRateLimit now id maxR win m).2 !! k = m !! k.
Proof.
  intros Hk. unfold checkRateLimit.
  destruct (m !! rateLimitKey id) as [cur|]; simpl.
  - destruct (now >? resetTime cur); simpl.
    + by rewrite lookup_insert_ne.
    + destruct (count cur >=? maxR); simpl; [done|].
      by rewrite lookup_insert_ne.
  - by rewrite lookup_insert_ne.
Qed.

(** The result of a call, and the record it leaves behind, depend on the
    map only through the caller's own record. *)
Lemma checkRateLimit_local now id maxR win (m1 m2 : gmap string RateLimitRecord) :
  m1 !! rateLimitKey id = m2 !! rateLimitKey id →
  (checkRateLimit now id maxR win m1).1 = (checkRateLimit now id maxR win m2).1
  ∧ (checkRateLimit now id maxR win m1).2 !! rateLimitKey id
    = (checkRateLimit now id maxR win m2).2 !! rateLimitKey id.
Proof.
  intros Heq. unfold checkRateLimit. rewrite <- Heq.
  destruct (m1 !! rateLimitKey id) as [cur|] eqn:E; simpl.
  - destruct (now >? resetTime cur); simpl.
    + by rewrite !lookup_insert_eq.
    + destruct (count cur >=? maxR); simpl.
      * split; [done|]. congruence.
      * by rewrite !lookup_insert_eq.
  - by rewrite !lookup_insert_eq.
Qed.

(** The periodic sweep is invisible to later calls, as long as the clock
    does not run backwards. *)
Lemma cleanupRateLimit_transparent now now' id maxR win
    (m : gmap string RateLimitRecord) :
  now ≤ now' →
  (checkRateLimit now' id maxR win (cleanupRateLimit now m)).1
  = (checkRateLimit now' id maxR win m).1.
Proof.
  intros Hle. unfold checkRateLimit, cleanupRateLimit.
  destruct (filter _ m !! rateLimitKey id) as [cur|] eqn:F.
  - apply map_lookup_filter_Some in F as [-> _].
    destruct (now' >? resetTime cur); [done|].
    by destruct (count cur >=? maxR).
  - destruct (m !! rateLimitKey id) as [cur|] eqn:E; [|done].
    destruct (now >? resetTime cur) eqn:Hexp.
    + apply Z.gtb_lt in Hexp.
      by rewrite (proj2 (Z.gtb_lt now' (resetTime cur))) by lia.
    + assert (filter (λ kv, negb (now >? resetTime kv.2) = true) m
                !! rateLimitKey id = Some cur) as F'.
      { apply map_lookup_filter_Some. split; [done|]. simpl. by rewrite Hexp. }
      congruence.
Qed.

Lemma run_cons m r rest :
  run m (r :: rest)
  = let c := checkRateLimit (reqTime r) (reqIdentifier r) (reqMax r) (reqWindow r) m in
    ((reqIdentifier r, c.1) :: (run c.2 rest).1, (run c.2 rest).2).
Proof.
  reflexivity.
Qed.

Lemma resultsOf_cons Y id res out :
  resultsOf Y ((id, res) :: out)
  = if bool_decide (id = Y) then res :: resultsOf Y out else resultsOf Y out.
Proof. unfold resultsOf; simpl. by case_bool_decide. Qed.

Lemma requestsOf_cons Y r rest :
  requestsOf Y (r :: rest)
  = if bool_decide (reqIdentifier r = Y) then r :: requestsOf Y rest
    else requestsOf Y rest.
Proof. reflexivity. Qed.

(** What identity [Y] observes is what it would observe had only its own
    requests been issued, from any map agreeing on [Y]'s record. *)
Lemma resultsOf_run_own Y log :
  ∀ m1 m2 : gmap string RateLimitRecord,
    m1 !! rateLimitKey Y = m2 !! rateLimitKey Y →
    resultsOf Y (run m1 log).1 = resultsOf Y (run m2 (requestsOf Y log)).1.
Proof.
  induction log as [|r rest IH]; intros m1 m2 Hm; [done|].
  rewrite run_cons, requestsOf_cons. cbv zeta. cbn [fst snd].
  rewrite resultsOf_cons.
  case_bool_decide as Hid.
  - rewrite run_cons. cbv zeta. cbn [fst snd].
    rewrite resultsOf_cons, bool_decide_true by done.
    rewrite Hid in *.
    destruct (checkRateLimit_local (reqTime r) Y (reqMax r) (reqWindow r) m1 m2 Hm)
      as [Hres Hnext].
    f_equal; [done|]. by apply IH.
  - apply IH. rewrite checkRateLimit_frame; [done|].
    intros Hk. apply rateLimitKey_inj in Hk. congruence.
Qed.

Lemma requestsOf_requestsNotOf X Y log :
  X ≠ Y → requestsOf Y (requestsNotOf X log) = requestsOf Y log.
Proof.
  intros Hne. unfold requestsOf, requestsNotOf.
  induction log as [|r rest IH]; [done|]. simpl.
  case_bool_decide as HX; simpl.
  - rewrite bool_decide_false by congruence. done.
  - by rewrite IH.
Qed.

(** ** C2 *)

(** The boundary instant [now = resetTime] with the budget used up: the
    claim's condition [now >= windowResetAt] holds, yet the call is
    rejected and the record is kept. *)
Lemma checkRateLimit_boundary_not_elapsed :
  let cur := mkRecord 5 100 in
  let m : gmap string RateLimitRecord := {[ rateLimitKey "guest" := cur ]} in
  100 >= resetTime cur
  ∧ allowed (checkRateLimit 100 "guest" 5 900000 m).1 = false
  ∧ (checkRateLimit 100 "guest" 5 900000 m).2 !! rateLimitKey "guest" = Some cur
  ∧ (checkRateLimit 100 "guest" 5 900000 m).2 !! rateLimitKey "guest"
    ≠ Some (mkRecord 1 (100 + 900000)).
Proof. cbn. repeat split; [lia | done]. Qed.

(** C2 (amended): the window has elapsed when [now > resetTime]
    (strictly).  With no record, or an elapsed window, the record becomes
    [count = 1, resetTime = now + windowMs] and the call is allowed; else
    with [count < maxRequests] the count is incremented and the call is
    allowed; else the call is denied with the stored [resetTime] and the
    map is unchanged. *)
Theorem checkRateLimit_cases now id maxR win (m : gmap string RateLimitRecord) :
  let key := rateLimitKey id in
  ((m !! key = None ∨ ∃ cur, m !! key = Some cur ∧ resetTime cur < now) →
     checkRateLimit now id maxR win m
     = (mkResult true (now + win), <[key := mkRecord 1 (now + win)]> m))
  ∧ (∀ cur, m !! key = Some cur → now ≤ resetTime cur → count cur < maxR →
     checkRateLimit now id maxR win m
     = (mkResult true (resetTime cur),
        <[key := mkRecord (count cur + 1) (resetTime cur)]> m))
  ∧ (∀ cur, m !! key = Some cur → now ≤ resetTime cur → maxR ≤ count cur →
     checkRateLimit now id maxR win m = (mkResult false (resetTime cur), m)).
Proof.
  intros key. unfold checkRateLimit. fold key. repeat split.
  - intros [-> | (cur & -> & Hlt)]; [done|].
    by rewrite (proj2 (Z.gtb_lt _ _) Hlt).
  - intros cur -> Hle Hc.
    destruct (now >? resetTime cur) eqn:E1; [apply Z.gtb_lt in E1; lia|].
    destruct (count cur >=? maxR) eqn:E2; [|done].
    apply Z.geb_le in E2. lia.
  - intros cur -> Hle Hc.
    destruct (now >? resetTime cur) eqn:E1; [apply Z.gtb_lt in E1; lia|].
    destruct (count cur >=? maxR) eqn:E2; [done|].
    rewrite Z.geb_leb in E2. apply Z.leb_gt in E2. lia.
Qed.

Lemma checkRateLimit_cases_witness :
  checkRateLimit 101 "guest" 5 1000 {[ rateLimitKey "guest" := mkRecord 5 100 ]}
  = (mkResult true 1101,
     <[rateLimitKey "guest" := mkRecord 1 1101]>
       {[ rateLimitKey "guest" := mkRecord 5 100 ]})
  ∧ checkRateLimit 100 "guest" 5 1000 {[ rateLimitKey "guest" := mkRecord 4 100 ]}
    = (mkResult true 100,
       <[rateLimitKey "guest" := mkRecord 5 100]>
         {[ rateLimitKey "guest" := mkRecord 4 100 ]})
  ∧ checkRateLimit 100 "guest" 5 1000 {[ rateLimitKey "guest" := mkRecord 5 100 ]}
    = (mkResult false 100, {[ rateLimitKey "guest" := mkRecord 5 100 ]}).
Proof.
  split; [|split].
  - apply (proj1 (checkRateLimit_cases 101 "guest" 5 1000
                    {[ rateLimitKey "guest" := mkRecord 5 100 ]})).
    right. exists (mkRecord 5 100). split; [reflexivity | simpl; lia].
  - apply (proj1 (proj2 (checkRateLimit_cases 100 "guest" 5 1000
                    {[ rateLimitKey "guest" := mkRecord 4 100 ]})) (mkRecord 4 100));
      [reflexivity | simpl; lia | simpl; lia].
  - apply (proj2 (proj2 (checkRateLimit_cases 100 "guest" 5 1000
                    {[ rateLimitKey "guest" := mkRecord 5 100 ]})) (mkRecord 5 100));
      [reflexivity | simpl; lia | simpl; lia].
Defined.

(** ** C9 *)

(** C9: if two request logs differ only in the requests issued under
    identity [X], then for every other identity [Y] the sequence of
    results returned to [Y] is the same in both runs. *)
Theorem rate_limit_noninterference (X Y : string)
    (m : gmap string RateLimitRecord) (log1 log2 : list Request) :
  X ≠ Y →
  requestsNotOf X log1 = requestsNotOf X log2 →
  resultsOf Y (run m log1).1 = resultsOf Y (run m log2).1.
Proof.
  intros Hne Hlogs.
  rewrite (resultsOf_run_own Y log1 m m eq_refl).
  rewrite (resultsOf_run_own Y log2 m m eq_refl).
  rewrite <- (requestsOf_requestsNotOf X Y log1 Hne).
  rewrite <- (requestsOf_requestsNotOf X Y log2 Hne).
  by rewrite Hlogs.
Qed.

Lemma rate_limit_noninterference_witness :
  let y1 := mkRequest 10 "bob" 2 1000 in
  let y2 := mkRequest 20 "bob" 2 1000 in
  let y3 := mkRequest 30 "bob" 2 1000 in
  let x t := mkRequest t "eve" 1 50 in
  resultsOf "bob" (run ∅ [x 5; y1; x 11; x 12; y2; y3; x 90]).1
  = resultsOf "bob" (run ∅ [y1; y2; x 25; y3]).1.
Proof.
  intros y1 y2 y3 x.
  apply (rate_limit_noninterference "eve" "bob" ∅
           [x 5; y1; x 11; x 12; y2; y3; x 90] [y1; y2; x 25; y3]).
  - discriminate.
  - reflexivity.
Defined.

End SecurityFacts.

(** ** base-service.ts: reads, writes and histories *)

Module DispatcherExtras.
Import Js ApiClient BaseService JsFacts ApiClientFacts BaseServiceFacts ApiErrorHandler ReadSlots.

Section Methods.
Context {T : Type} (truthy : T → bool).
Implicit Types (svc : Service T) (d : T) (st : Step T) (key : string)
               (reply : FetchOutcome T).

Lemma setCache_fields key d ttl_ now svc :
  endpoint (setCache key d ttl_ now svc) = endpoint svc
  ∧ cacheTimeout (setCache key d ttl_ now svc) = cacheTimeout svc
  ∧ enableCache (setCache key d ttl_ now svc) = enableCache svc.
Proof. unfold setCache. by destruct (enableCache svc) eqn:E. Qed.

Lemma setCache_frame key d ttl_ now svc k :
  k ≠ key → cache (setCache key d ttl_ now svc) !! k = cache svc !! k.
Proof.
  intros Hk. unfold setCache. destruct (negb (enableCache svc)); [done|].
  simpl. by rewrite lookup_insert_ne.
Qed.

Lemma getCache_frame key now svc k :
  k ≠ key → cache (getCache key now svc).2 !! k = cache svc !! k.
Proof.
  intros Hk. unfold getCache. destruct (negb (enableCache svc)); [done|].
  destruct (cache svc !! key) as [e|]; [|done].
  destruct (now - timestamp e >? ttl e); [|done].
  simpl. by rewrite lookup_delete_ne.
Qed.

(** A lookup of a live entry returns its value and changes nothing. *)
Lemma getCache_live key now svc e :
  enableCache svc = true → cache svc !! key = Some e →
  now - timestamp e ≤ ttl e →
  getCache key now svc = (Some (entryData e), svc).
Proof.
  intros Hen He Hlive. rewrite (getCache_present key now svc e Hen He).
  destruct (now - timestamp e >? ttl e) eqn:E; [|done].
  apply Z.gtb_lt in E. lia.
Qed.

Lemma cachedRead_fields context key ttl_ call tGet tSet reply svc :
  endpoint (after (cachedRead truthy context key ttl_ call tGet tSet reply svc))
  = endpoint svc
  ∧ cacheTimeout (after (cachedRead truthy context key ttl_ call tGet tSet reply svc))
    = cacheTimeout svc
  ∧ enableCache (after (cachedRead truthy context key ttl_ call tGet tSet reply svc))
    = enableCache svc.
Proof.
  destruct (getCache_fields key tGet svc) as [Hep Hct].
  pose proof (getCache_enableCache key tGet svc) as Hen.
  assert (Hset : ∀ d,
             endpoint (setCache key d ttl_ tSet (getCache key tGet svc).2) = endpoint svc
             ∧ cacheTimeout (setCache key d ttl_ tSet (getCache key tGet svc).2)
               = cacheTimeout svc
             ∧ enableCache (setCache key d ttl_ tSet (getCache key tGet svc).2)
               = enableCache svc).
  { intros d.
    destruct (setCache_fields key d ttl_ tSet (getCache key tGet svc).2) as (-> & -> & ->).
    done. }
  unfold cachedRead.
  destruct ((getCache key tGet svc).1) as [cached|];
    [destruct (truthy cached)|]; simpl; try done;
    destruct (request reply); simpl; auto.
Qed.

(** A cached read touches no entry but the one under its key. *)
Lemma cachedRead_frame context key ttl_ call tGet tSet reply svc k :
  k ≠ key →
  cache (after (cachedRead truthy context key ttl_ call tGet tSet reply svc)) !! k
  = cache svc !! k.
Proof.
  intros Hk. pose proof (getCache_frame key tGet svc k Hk) as Hget.
  unfold cachedRead.
  destruct ((getCache key tGet svc).1) as [cached|];
    [destruct (truthy cached)|]; simpl; try done;
    destruct (request reply); simpl; try done;
    by rewrite setCache_frame.
Qed.

Lemma cachedRead_served context key ttl_ call tGet tSet reply svc e :
  enableCache svc = true → cache svc !! key = Some e →
  tGet - timestamp e ≤ ttl e → truthy (entryData e) = true →
  cachedRead truthy context key ttl_ call tGet tSet reply svc
  = mkEffect (Returns (entryData e)) svc [].
Proof.
  intros Hen He Hlive Ht. unfold cachedRead.
  rewrite (getCache_live key tGet svc e Hen He Hlive). simpl. by rewrite Ht.
Qed.

Lemma slotOf_endpoint op svc svc' :
  endpoint svc = endpoint svc' → slotOf op svc = slotOf op svc'.
Proof. intros H. destruct op; simpl; unfold getCacheKey; by rewrite ?H. Qed.

(** The methods with a slot are the cached reads of the source. *)
Lemma perform_read st svc key ttl_ call :
  slotOf (stepOp st) svc = Some (key, ttl_, call) →
  (∀ id, stepOp st ≠ OpExists id) →
  ∃ context,
    perform truthy st svc
    = cachedRead truthy context key ttl_ call (stepGet st) (stepSet st) (stepReply st) svc.
Proof.
  intros Hslot Hex. unfold perform.
  destruct (stepOp st) as [params|id| | | | |id| | | |query filters|page limit filters|id relations];
    simpl in Hslot; simplify_eq.
  - by exists "fetch all items".
  - by exists ("fetch item with ID " +:+ id).
  - by destruct (Hex id).
  - by exists ("search items with query "
               +:+ String dquote (query +:+ String dquote "")).
  - by exists ("fetch paginated results (page " +:+ pretty (default 1 page) +:+ ")").
  - by exists ("fetch item with relations: " +:+ join ", " relations).
Qed.

Lemma exists_effect id tGet tSet reply svc :
  after (exists_ truthy id tGet tSet reply svc)
  = after (getById truthy id tGet tSet reply svc)
  ∧ calls (exists_ truthy id tGet tSet reply svc)
    = calls (getById truthy id tGet tSet reply svc).
Proof.
  unfold exists_.
  destruct (outcome (getById truthy id tGet tSet reply svc)) as [msg| | |];
    [destruct (includes msg "not found")|..]; done.
Qed.

Lemma perform_fields st svc :
  endpoint (after (perform truthy st svc)) = endpoint svc
  ∧ cacheTimeout (after (perform truthy st svc)) = cacheTimeout svc
  ∧ enableCache (after (perform truthy st svc)) = enableCache svc.
Proof.
  assert (Hwrite : ∀ context call pattern returnsData reply,
             let e := write context call pattern returnsData reply svc in
             endpoint (after e) = endpoint svc
             ∧ cacheTimeout (after e) = cacheTimeout svc
             ∧ enableCache (after e) = enableCache svc).
  { intros context call pattern returnsData reply e.
    destruct (write_effect context call pattern returnsData reply svc)
      as [_ [Ha | Ha]]; unfold e; rewrite Ha; [done|].
    destruct (clearCache_fields pattern svc) as (-> & -> & ->). done. }
  unfold perform.
  destruct (stepOp st); try apply cachedRead_fields; try apply Hwrite.
  rewrite (proj1 (exists_effect id (stepGet st) (stepSet st) (stepReply st) svc)).
  apply cachedRead_fields.
Qed.

(** Every error of [request] is shown as the connectivity text. *)
Lemma handleError_of_request reply (e : ApiErrorClass) :
  request reply = inl e → handleError e = connectivityMessage.
Proof.
  intros H. destruct (request_error_shape reply e H) as (Hs & _ & _).
  unfold handleError. by rewrite Hs.
Qed.

Lemma cachedRead_throws context key ttl_ call tGet tSet reply svc msg :
  outcome (cachedRead truthy context key ttl_ call tGet tSet reply svc) = Throws msg →
  msg = connectivityMessage.
Proof.
  unfold cachedRead.
  destruct ((getCache key tGet svc).1) as [cached|];
    [destruct (truthy cached)|]; simpl; try done;
    destruct (request reply) as [e|r] eqn:E; simpl; try done;
    intros [= <-]; by apply (handleError_of_request reply).
Qed.

Lemma write_throws context call pattern returnsData reply svc msg :
  outcome (write context call pattern returnsData reply svc) = Throws msg →
  msg = connectivityMessage
  ∧ after (write context call pattern returnsData reply svc) = svc.
Proof.
  unfold write. destruct (request reply) as [e|r] eqn:E; simpl.
  - intros [= <-]. split; [|done]. by apply (handleError_of_request reply).
  - by destruct returnsData.
Qed.

Lemma write_not_throws context call pattern returnsData reply svc :
  (∀ msg, outcome (write context call pattern returnsData reply svc) ≠ Throws msg) →
  after (write context call pattern returnsData reply svc) = clearCache pattern svc.
Proof.
  unfold write. destruct (request reply) as [e|r]; simpl; [|done].
  intros H. by destruct (H (handleError e)).
Qed.

(** On an empty cache a read issues the call of its slot. *)
Lemma perform_miss st svc key ttl_ call :
  cache svc = ∅ →
  slotOf (stepOp st) svc = Some (key, ttl_, call) →
  calls (perform truthy st svc) = [call].
Proof.
  intros Hc Hslot.
  assert (Hmiss : ∀ k now, (getCache k now svc).1 = None).
  { intros k now. rewrite getCache_absent; [done|]. by rewrite Hc. }
  unfold perform.
  destruct (stepOp st); simpl in Hslot; simplify_eq;
    rewrite ?(proj2 (exists_effect _ _ _ _ _));
    by apply cachedRead_miss.
Qed.

(** X1: [clearCache] with a non-empty pattern deletes exactly the keys
    that contain the pattern and keeps every other entry as it is; without
    a pattern, or with the empty pattern, it empties the cache.  The
    configuration of the instance is never touched. *)
Theorem clearCache_removes_matching pattern svc :
  (pattern ≠ "" →
     ∀ k, cache (clearCache (Some pattern) svc) !! k
          = if includes k pattern then None else cache svc !! k)
  ∧ cache (clearCache None svc) = ∅
  ∧ cache (clearCache (Some "") svc) = ∅
  ∧ ∀ p, endpoint (clearCache p svc) = endpoint svc
         ∧ enableCache (clearCache p svc) = enableCache svc
         ∧ cacheTimeout (clearCache p svc) = cacheTimeout svc.
Proof.
  split_and!.
  - intros Hp k. by apply clearCache_lookup.
  - done.
  - done.
  - intros p. apply clearCache_fields.
Qed.

(** X2: a read that went to the transport and returned a truthy value is
    answered from the cache, without any call and without any change of
    the instance, by every repetition of the same read made no later than
    the lifetime of the entry after the store: [cacheTimeout], or 60000 ms
    for [search]. *)
Theorem read_again_within_lifetime st svc d key ttl_ call tGet' tSet' reply' :
  enableCache svc = true →
  slotOf (stepOp st) svc = Some (key, ttl_, call) →
  calls (perform truthy st svc) ≠ [] →
  outcome (perform truthy st svc) = Returns d →
  truthy d = true →
  tGet' - stepSet st ≤ orNumber ttl_ (cacheTimeout svc) →
  perform truthy (mkStep (stepOp st) tGet' tSet' reply') (after (perform truthy st svc))
  = mkEffect (Returns d) (after (perform truthy st svc)) [].
Proof.
  intros Hen Hslot Hcalls Hout Ht Hlive.
  assert (Hnot : ∀ id, stepOp st ≠ OpExists id).
  { intros id Hid. unfold perform in Hout. rewrite Hid in Hout.
    unfold exists_ in Hout.
    destruct (outcome (getById truthy id (stepGet st) (stepSet st) (stepReply st) svc))
      as [msg| | |]; [destruct (includes msg "not found")|..]; done. }
  destruct (perform_read st svc key ttl_ call Hslot Hnot) as [context Hst].
  rewrite Hst in *.
  set (e1 := cachedRead truthy context key ttl_ call (stepGet st) (stepSet st)
                        (stepReply st) svc) in *.
  destruct (cachedRead_fields context key ttl_ call (stepGet st) (stepSet st)
              (stepReply st) svc) as (Hep & _ & Hen').
  fold e1 in Hep, Hen'.
  assert (Hslot' : slotOf (stepOp (mkStep (stepOp st) tGet' tSet' reply')) (after e1)
                   = Some (key, ttl_, call)).
  { simpl. by rewrite (slotOf_endpoint (stepOp st) (after e1) svc Hep). }
  destruct (perform_read (mkStep (stepOp st) tGet' tSet' reply') (after e1)
              key ttl_ call Hslot' Hnot) as [context' ->].
  simpl.
  pose proof (cachedRead_stores truthy context key ttl_ call (stepGet st) (stepSet st)
                (stepReply st) svc d Hen Hout Hcalls) as Hentry.
  fold e1 in Hentry.
  apply (cachedRead_served context' key ttl_ call tGet' tSet' reply' (after e1)
           (mkEntry d (stepSet st) (orNumber ttl_ (cacheTimeout svc))));
    [congruence | done | done | done].
Qed.

(** X3: a method that consults the cache changes no entry but the one
    under its own key. *)
Theorem read_touches_own_key st svc key ttl_ call k :
  slotOf (stepOp st) svc = Some (key, ttl_, call) →
  k ≠ key →
  cache (after (perform truthy st svc)) !! k = cache svc !! k.
Proof.
  intros Hslot Hk. unfold perform.
  destruct (stepOp st); simpl in Hslot; simplify_eq;
    rewrite ?(proj1 (exists_effect _ _ _ _ _));
    by apply cachedRead_frame.
Qed.

(** X5: along every history of method calls the instance keeps the
    endpoint, the cache timeout and the enable flag it was constructed
    with. *)
Theorem history_keeps_config steps svc :
  Forall (λ e, endpoint (after e) = endpoint svc
               ∧ cacheTimeout (after e) = cacheTimeout svc
               ∧ enableCache (after e) = enableCache svc)
         (performAll truthy svc steps).
Proof.
  revert svc. induction steps as [|st rest IH]; intros svc; simpl; [constructor|].
  destruct (perform_fields st svc) as (Hep & Hct & Hen).
  constructor; [done|].
  eapply Forall_impl; [apply IH|]. simpl. intros e (-> & -> & ->). done.
Qed.

(** X6: a write ([create], [update], [patch], [delete] and the bulk
    variants) that throws has not changed the instance: the cache is
    cleared only after the call has succeeded. *)
Theorem failed_write_keeps_cache st svc msg :
  isRead (stepOp st) = false →
  outcome (perform truthy st svc) = Throws msg →
  after (perform truthy st svc) = svc.
Proof.
  intros Hw Hout. unfold perform in *.
  destruct (stepOp st); try discriminate Hw;
    by apply write_throws in Hout as [_ ?].
Qed.

(** X7: [update], [patch], [delete], [bulkUpdate] and [bulkDelete], when
    they do not throw, leave the cache empty, so that every read made
    next issues its call. *)
Theorem full_write_empties_cache st svc :
  clearsAll (stepOp st) = true →
  (∀ msg, outcome (perform truthy st svc) ≠ Throws msg) →
  cache (after (perform truthy st svc)) = ∅
  ∧ ∀ st' key ttl_ call,
      slotOf (stepOp st') (after (perform truthy st svc)) = Some (key, ttl_, call) →
      calls (perform truthy st' (after (perform truthy st svc))) = [call].
Proof.
  intros Hall Hok.
  assert (Hempty : cache (after (perform truthy st svc)) = ∅).
  { unfold perform in *.
    destruct (stepOp st); try discriminate Hall;
      unfold update, patch, delete_, bulkUpdate, bulkDelete in *;
      by rewrite write_not_throws. }
  split; [done|]. intros st' key ttl_ call. by apply perform_miss.
Qed.

(** X8: whatever made the transport fail (no network, a 4xx or 5xx
    status, a body that does not parse), the error a method throws reads
    "Unable to connect to the server. Please check your internet
    connection."; [exists] puts "Failed to check if item with ID ...
    exists: " before it. *)
Theorem method_errors_read_connectivity st svc msg :
  outcome (perform truthy st svc) = Throws msg →
  msg = connectivityMessage
  ∨ ∃ id, stepOp st = OpExists id
          ∧ msg = "Failed to check if item with ID " +:+ id +:+ " exists: "
                  +:+ connectivityMessage.
Proof.
  unfold perform.
  destruct (stepOp st) as [params|id| |id|id|id|id| | |ids|query filters
                           |page limit filters|id relations];
    try (intros H; left; by apply cachedRead_throws in H);
    try (intros H; left; by apply write_throws in H as [? _]).
  unfold exists_.
  destruct (outcome (getById truthy id (stepGet st) (stepSet st) (stepReply st) svc))
    as [inner| | |] eqn:E; try done.
  apply cachedRead_throws in E as ->.
  change (includes connectivityMessage "not found") with false.
  simpl. intros [= <-]. right. exists id. split; [done|].
  by rewrite !app_assoc.
Qed.

(** X9: [exists] never answers [false]: a missing item surfaces as a
    thrown error, because the 404 of the transport has become a status-0
    error whose text does not contain "not found". *)
Theorem exists_never_false id tGet tSet reply svc :
  outcome (exists_ truthy id tGet tSet reply svc) ≠ ReturnsBool false.
Proof.
  unfold exists_.
  destruct (outcome (getById truthy id tGet tSet reply svc)) as [inner| | |] eqn:E;
    try done.
  apply cachedRead_throws in E as ->.
  by change (includes connectivityMessage "not found") with false.
Qed.

End Methods.

(** X4: within one instance, two reads that use the same cache key issue
    the same [apiClient] call and store with the same [ttl]: a value
    served from the cache is one that the same request fetched. *)
Theorem same_key_same_call {T : Type} (svc : Service T) (op1 op2 : Op)
    key ttl1 ttl2 call1 call2 :
  slotOf op1 svc = Some (key, ttl1, call1) →
  slotOf op2 svc = Some (key, ttl2, call2) →
  ttl1 = ttl2 ∧ call1 = call2.
Proof.
  assert (Hsplit : ∀ m1 m2 p1 p2,
             getCacheKey svc m1 p1 = getCacheKey svc m2 p2 →
             m1 +:+ ":" +:+ stringify p1 = m2 +:+ ":" +:+ stringify p2).
  { unfold getCacheKey. intros m1 m2 p1 p2 H. by apply app_inv_head, app_inv_head in H. }
  assert (Hobj : ∀ a b, optObject a = optObject b → a = b).
  { intros [a|] [b|] H; by simplify_eq. }
  intros H1 H2.
  destruct op1; simpl in H1; try discriminate H1;
    destruct op2; simpl in H2; try discriminate H2;
    simplify_eq;
    match goal with
    | H : getCacheKey _ ?m _ = getCacheKey _ ?m _ |- _ =>
        apply getCacheKey_params_inj in H; simplify_eq
    | H : getCacheKey _ _ _ = getCacheKey _ _ _ |- _ =>
        apply Hsplit in H; repeat rewrite app_cons in H; by simplify_eq
    | _ => idtac
    end;
    try done;
    try (match goal with
         | H : optObject _ = optObject _ |- _ => apply Hobj in H as ->
         | H : spread _ _ = spread _ _ |- _ => rewrite H
         end; done).
Qed.

Import Samples.

Lemma clearCache_removes_matching_witness :
  let s1 := after (getAll truthyString None 1000 1001 (okReply "all") guests) in
  let s2 := after (getById truthyString "7" 1002 1003 (okReply "Ann") s1) in
  cache (clearCache (Some "getAll") s2) !! getCacheKey guests "getAll" [VUndefined]
  = None
  ∧ cache (clearCache (Some "getAll") s2) !! getCacheKey guests "getById" [VString "7"]
    = cache s2 !! getCacheKey guests "getById" [VString "7"].
Proof.
  intros s1 s2.
  destruct (clearCache_removes_matching "getAll" s2) as (Hspec & _).
  split.
  - rewrite (Hspec ltac:(discriminate)). reflexivity.
  - rewrite (Hspec ltac:(discriminate)). reflexivity.
Defined.

Lemma read_again_within_lifetime_witness :
  let first := mkStep (OpGetAll None) 1000 1001 (okReply "all") in
  perform truthyString (mkStep (OpGetAll None) 301001 301002 (FetchRejects "offline"))
          (after (perform truthyString first guests))
  = mkEffect (Returns "all") (after (perform truthyString first guests)) [].
Proof.
  intros first.
  apply (read_again_within_lifetime truthyString first guests "all"
           (getCacheKey guests "getAll" [VUndefined]) None
           (mkCall GET "/guests" None)).
  - reflexivity.
  - reflexivity.
  - discriminate.
  - reflexivity.
  - reflexivity.
  - simpl. lia.
Defined.

Lemma read_touches_own_key_witness :
  let svc := after (getById truthyString "7" 1000 1001 (okReply "Ann") guests) in
  let st := mkStep (OpGetAll None) 400000 400001 (okReply "all") in
  cache (after (perform truthyString st svc)) !! getCacheKey guests "getById" [VString "7"]
  = cache svc !! getCacheKey guests "getById" [VString "7"].
Proof.
  intros svc st.
  apply (read_touches_own_key truthyString st svc
           (getCacheKey guests "getAll" [VUndefined]) None (mkCall GET "/guests" None)).
  - reflexivity.
  - discriminate.
Defined.

Lemma same_key_same_call_witness :
  (None : option Z) = None
  ∧ mkCall GET "/guests/7" None = mkCall GET "/guests/7" None.
Proof.
  apply (same_key_same_call guests (OpGetById "7") (OpExists "7")
           (getCacheKey guests "getById" [VString "7"])); reflexivity.
Defined.

Lemma failed_write_keeps_cache_witness :
  let svc := after (getAll truthyString None 1000 1001 (okReply "all") guests) in
  after (perform truthyString (mkStep OpCreate 2000 2001 (FetchRejects "offline")) svc)
  = svc.
Proof.
  intros svc.
  apply (failed_write_keeps_cache truthyString
           (mkStep OpCreate 2000 2001 (FetchRejects "offline")) svc
           ApiErrorHandler.connectivityMessage); reflexivity.
Defined.

Lemma full_write_empties_cache_witness :
  let svc := after (getAll truthyString None 1000 1001 (okReply "all") guests) in
  let st := mkStep (OpUpdate "7") 2000 2001 (okReply "Ann") in
  cache (after (perform truthyString st svc)) = ∅.
Proof.
  intros svc st.
  apply (full_write_empties_cache truthyString st svc).
  - reflexivity.
  - intros msg. discriminate.
Defined.

Lemma method_errors_read_connectivity_witness :
  let notFound : FetchOutcome string :=
    FetchResolves (mkResponse 404 "Not Found" (Some "application/json")
                     (DecodedValue "" (mkEnvelope (Some "Guest not found") None None None))
                     DecodeRejects) in
  let st := mkStep (OpGetById "7") 1000 1001 notFound in
  connectivityMessage = connectivityMessage
  ∨ ∃ id, stepOp st = OpExists id
          ∧ connectivityMessage
            = "Failed to check if item with ID " +:+ id +:+ " exists: "
              +:+ connectivityMessage.
Proof.
  intros notFound st.
  apply (method_errors_read_connectivity truthyString st guests connectivityMessage).
  reflexivity.
Defined.

End DispatcherExtras.

(** ** api-client.ts: outcomes of [request] and texts of [handleError] *)

Module ApiClientExtras.
Import Js ApiClient JsFacts ApiClientFacts ApiErrorHandler.

Lemma handleResponse_decoded {T : Type} (response : Response T) :
  handleResponse response
  = match decoded response with
    | DecodeRejects =>
        inl (ThrowApiError
               (mkApiError "Failed to parse response" (httpStatus response) None None))
    | DecodedNull msg => inl (ThrowError msg)
    | DecodedValue d env =>
        if negb (ok response) then
          inl (ThrowApiError
                 (mkApiError
                    (orString (envMessage env)
                       ("HTTP " +:+ pretty (httpStatus response) +:+ ": "
                        +:+ statusText response))
                    (httpStatus response) (envCode env)
                    (orObject (envErrors env) (envDetails env))))
        else inr (mkApiResponse d (httpStatus response) (envMessage env))
    end.
Proof. reflexivity. Qed.

(** X10: [request] returns a response exactly when [fetch] resolved, the
    status is in 200..299 and the body decoded to a value other than
    [null]; the result then carries that value, the status of the
    response and the [message] property of the body. *)
Theorem request_returns_iff {T : Type} (reply : FetchOutcome T) (r : ApiResponse T) :
  request reply = inr r
  ↔ ∃ response env,
      reply = FetchResolves response
      ∧ decoded response = DecodedValue (data r) env
      ∧ 200 ≤ httpStatus response ≤ 299
      ∧ responseStatus r = httpStatus response
      ∧ responseMessage r = envMessage env.
Proof.
  split.
  - destruct reply as [msg|response]; simpl; [done|].
    rewrite handleResponse_decoded.
    destruct (decoded response) as [|msg|d env] eqn:Hd; try done.
    destruct (negb (ok response)) eqn:Hok; [done|].
    intros [= <-]. exists response, env. simpl.
    apply negb_false_iff, andb_prop in Hok as [H1 H2].
    apply Z.leb_le in H1, H2. done.
  - intros (response & env & -> & Hd & [H1 H2] & Hs & Hm). simpl.
    rewrite handleResponse_decoded, Hd.
    unfold ok. rewrite (proj2 (Z.leb_le _ _) H1), (proj2 (Z.leb_le _ _) H2). simpl.
    destruct r as [d s m]. simpl in *. by subst.
Qed.

(** X11: every error [request] throws counts as a network error, never
    as an authentication or a validation error, and [handleError] shows
    it as the connectivity text, whatever the status of the response
    was. *)
Theorem request_errors_are_network_errors {T : Type} (reply : FetchOutcome T)
    (e : ApiErrorClass) :
  request reply = inl e →
  isNetworkError e = true
  ∧ isAuthenticationError e = false
  ∧ isValidationError e = false
  ∧ handleError e = connectivityMessage.
Proof.
  intros H. destruct (request_error_shape reply e H) as (Hs & Hc & _).
  unfold isNetworkError, isAuthenticationError, isValidationError, handleError.
  by rewrite Hs.
Qed.

Lemma request_errors_are_network_errors_witness :
  let unauthorized : FetchOutcome unit :=
    FetchResolves (mkResponse 401 "Unauthorized" (Some "application/json")
                     (DecodedValue tt (mkEnvelope (Some "Token expired") None None None))
                     DecodeRejects) in
  let e := mkApiError "Token expired" 0 (Some "NETWORK_ERROR") None in
  isNetworkError e = true
  ∧ isAuthenticationError e = false
  ∧ isValidationError e = false
  ∧ handleError e = connectivityMessage.
Proof.
  intros unauthorized e.
  apply (request_errors_are_network_errors unauthorized e). reflexivity.
Defined.

(** *** When [handleError] returns the empty string *)

Lemma joinRest_nonempty sep x rest :
  sep ≠ "" → joinRest sep (x :: rest) ≠ "".
Proof.
  intros Hsep. simpl. destruct sep as [|c sep]; [done|]. by rewrite app_cons.
Qed.

Lemma app_eq_nil (a b : string) : a +:+ b = "" → a = "" ∧ b = "".
Proof. destruct a; [done|]. by rewrite app_cons. Qed.

Lemma join_empty_iff (l : list string) :
  join ", " l = "" ↔ l = [] ∨ l = [""].
Proof.
  split.
  - destruct l as [|x rest]; [by left|]. simpl. intros H.
    apply app_eq_nil in H as [-> H]. right.
    destruct rest as [|y rest]; [done|].
    by apply joinRest_nonempty in H.
  - by intros [-> | ->].
Qed.

(** Outside 400 and 422 the text does not depend on [details]. *)
Lemma handleError_ignores_details (e : ApiErrorClass) :
  status e ≠ 400 → status e ≠ 422 →
  handleError e = handleError (mkApiError (message e) (status e) (code e) None).
Proof.
  intros H400 H422. unfold handleError. simpl.
  destruct (status e) as [|p|p]; try done.
  repeat (destruct p as [p|p|]; try done).
Qed.

(** X12: [handleError] returns the empty string exactly for a 400 or 422
    error that carries a [details] object with no message in it, or with a
    single, empty one; every other error gets a non-empty text. *)
Theorem handleError_empty_iff (e : ApiErrorClass) :
  handleError e = ""
  ↔ (status e = 400 ∨ status e = 422)
    ∧ ∃ d, details e = Some d
           ∧ (concat (map snd d) = [] ∨ concat (map snd d) = [""]).
Proof.
  split.
  - intros Hempty.
    assert (Hst : status e = 400 ∨ status e = 422).
    { destruct (decide (status e = 400)) as [|H400]; [by left|].
      destruct (decide (status e = 422)) as [|H422]; [by right|].
      rewrite (handleError_ignores_details e H400 H422) in Hempty.
      by apply handleError_nonempty_no_details in Hempty. }
    split; [done|].
    destruct (details e) as [d|] eqn:Hd.
    + exists d. split; [done|]. apply join_empty_iff.
      unfold handleError in Hempty. rewrite Hd in Hempty.
      destruct Hst as [Hs | Hs]; rewrite Hs in Hempty; exact Hempty.
    + by apply handleError_nonempty_no_details in Hempty.
  - intros (Hst & d & Hd & Hj). apply join_empty_iff in Hj.
    unfold handleError. rewrite Hd. destruct Hst as [Hs | Hs]; rewrite Hs; exact Hj.
Qed.

End ApiClientExtras.

(** ** security.ts: budgets and the periodic sweep *)

Module RateLimitExtras.
Import Security SecurityFacts.

(** X13: [cleanupRateLimit] keeps exactly the records whose window is
    still open ([now <= resetTime]) and changes none of them; a sweep
    followed by a later sweep is the later sweep alone. *)
Theorem cleanupRateLimit_keeps_live now (m : gmap string RateLimitRecord) :
  (∀ k r, cleanupRateLimit now m !! k = Some r ↔ m !! k = Some r ∧ now ≤ resetTime r)
  ∧ (∀ later, now ≤ later →
       cleanupRateLimit later (cleanupRateLimit now m) = cleanupRateLimit later m).
Proof.
  assert (Hspec : ∀ t (m' : gmap string RateLimitRecord) k r,
             cleanupRateLimit t m' !! k = Some r ↔ m' !! k = Some r ∧ t ≤ resetTime r).
  { intros t m' k r. unfold cleanupRateLimit. rewrite map_lookup_filter_Some. simpl.
    rewrite negb_true_iff, Z.gtb_ltb, Z.ltb_ge. done. }
  split; [apply Hspec|].
  intros later Hle. apply map_eq. intros k. apply option_eq. intros r.
  rewrite !Hspec. split.
  - intros [[H1 _] H2]. done.
  - intros [H1 H2]. split_and!; [done|lia|done].
Qed.

Lemma cleanupRateLimit_keeps_live_witness :
  let m : gmap string RateLimitRecord :=
    {[ rateLimitKey "old" := mkRecord 3 100; rateLimitKey "new" := mkRecord 1 900 ]} in
  cleanupRateLimit 800 (cleanupRateLimit 500 m) = cleanupRateLimit 800 m.
Proof.
  intros m. apply (proj2 (cleanupRateLimit_keeps_live 500 m) 800). lia.
Defined.

Lemma cleanupRateLimit_transparent_witness :
  (checkRateLimit 700 "old" 5 1000
     (cleanupRateLimit 500 {[ rateLimitKey "old" := mkRecord 3 100 ]})).1
  = (checkRateLimit 700 "old" 5 1000 {[ rateLimitKey "old" := mkRecord 3 100 ]}).1.
Proof.
  apply (cleanupRateLimit_transparent 500 700 "old" 5 1000
           {[ rateLimitKey "old" := mkRecord 3 100 ]}).
  lia.
Defined.

(** Inside an open window the calls of one identity are counted. *)
Lemma run_in_window id maxR win R rest :
  ∀ (i : nat) c (m : gmap string RateLimitRecord),
    (1 ≤ i)%nat →
    m !! rateLimitKey id = Some (mkRecord c R) →
    c = Z.max 1 (Z.min (Z.of_nat i) maxR) →
    Forall (λ t, t ≤ R) rest →
    resultsOf id (run m (map (λ t, mkRequest t id maxR win) rest)).1
    = map (λ j : nat, mkResult (bool_decide (Z.of_nat j < maxR)) R)
          (seq i (length rest)).
Proof.
  induction rest as [|t rest IH]; intros i c m Hi Hm Hc Hrest; [done|].
  apply Forall_cons in Hrest as [Ht Hrest].
  simpl map. rewrite run_cons. cbv zeta. cbn [fst snd reqTime reqIdentifier reqMax reqWindow].
  rewrite resultsOf_cons, bool_decide_true by done.
  assert (Hcheck : checkRateLimit t id maxR win m
                   = if bool_decide (Z.of_nat i < maxR)
                     then (mkResult true R,
                           <[rateLimitKey id := mkRecord (c + 1) R]> m)
                     else (mkResult false R, m)).
  { unfold checkRateLimit. rewrite Hm. simpl.
    destruct (t >? R) eqn:E1; [apply Z.gtb_lt in E1; lia|].
    destruct (c >=? maxR) eqn:E2.
    - apply Z.geb_le in E2. rewrite bool_decide_false by lia. done.
    - rewrite Z.geb_leb in E2. apply Z.leb_gt in E2.
      rewrite bool_decide_true by lia. done. }
  rewrite Hcheck. cbn [seq length List.map].
  case_bool_decide as Hlt; simpl; f_equal.
  - apply (IH (S i) (c + 1)); [lia | apply lookup_insert_eq | lia | done].
  - apply (IH (S i) c); [lia | done | lia | done].
Qed.

(** X15: from the first call of an identity on, and as long as the calls
    come no later than the [resetTime] the first one set, the first call
    is allowed whatever [maxRequests] is, call number [i] (counted from 0)
    is allowed exactly when [i < maxRequests], and all of them report the
    same [resetTime]; the calls of other identities in between do not
    matter. *)
Theorem window_budget id maxR win (m : gmap string RateLimitRecord) log t0 rest :
  m !! rateLimitKey id = None →
  requestsOf id log = map (λ t, mkRequest t id maxR win) (t0 :: rest) →
  Forall (λ t, t ≤ t0 + win) rest →
  resultsOf id (run m log).1
  = map (λ i : nat,
           mkResult (bool_decide (i = 0%nat ∨ Z.of_nat i < maxR)) (t0 + win))
        (seq 0 (S (length rest))).
Proof.
  intros Hm Hlog Hrest.
  rewrite (resultsOf_run_own id log m m eq_refl), Hlog.
  simpl map at 1. rewrite run_cons. cbv zeta.
  cbn [fst snd reqTime reqIdentifier reqMax reqWindow].
  rewrite resultsOf_cons, bool_decide_true by done.
  unfold checkRateLimit at 1 2. rewrite Hm. cbn [fst snd].
  cbn [seq List.map]. rewrite bool_decide_true by (by left). f_equal.
  rewrite (run_in_window id maxR win (t0 + win) rest 1 1); [|lia|apply lookup_insert_eq|lia|done].
  apply map_ext_in. intros j Hj. apply in_seq in Hj.
  f_equal. apply bool_decide_ext. lia.
Qed.

Lemma window_budget_witness :
  let log := [ mkRequest 0 "ip" 2 1000; mkRequest 10 "other" 1 50;
               mkRequest 400 "ip" 2 1000; mkRequest 1000 "ip" 2 1000 ] in
  resultsOf "ip" (run ∅ log).1
  = [ mkResult true 1000; mkResult true 1000; mkResult false 1000 ].
Proof.
  intros log.
  apply (window_budget "ip" 2 1000 ∅ log 0 [400; 1000]).
  - reflexivity.
  - reflexivity.
  - repeat constructor; lia.
Defined.

End RateLimitExtras.
